(** * cpp-guard-buddy: include guards and [#pragma once] in C/C++ headers

    A shallow embedding of [src/extention.ts].  The extension reads a
    document line by line ([lineCount], [lineAt(i).text]), recognises the two
    protection idioms with five regular expressions, derives a macro name
    from the file path and rewrites the document through one editor
    transaction per command.

    Strings are sequences of code units; the model covers the code units
    0..255 (type [ascii], read as Latin-1). *)

From Stdlib Require Import Ascii String List Arith Bool Lia.
Import ListNotations.

Local Open Scope char_scope.
Local Open Scope nat_scope.
Local Open Scope bool_scope.
Local Open Scope list_scope.

(** ** Strings *)

Abbreviation jsstring := (list ascii).

Definition str (s : string) : jsstring := list_ascii_of_string s.
Arguments str s%_string.

Definition code (c : ascii) : nat := nat_of_ascii c.

Definition inRange (lo hi : nat) (c : ascii) : bool :=
  (lo <=? code c) && (code c <=? hi).

Definition isUpper (c : ascii) : bool := inRange 65 90 c.
Definition isLower (c : ascii) : bool := inRange 97 122 c.
Definition isDigit (c : ascii) : bool := inRange 48 57 c.
Definition isUnderscore (c : ascii) : bool := code c =? 95.

(** [\w] of a regular expression without the unicode flag. *)
Definition isWordChar (c : ascii) : bool :=
  isUpper c || isLower c || isDigit c || isUnderscore c.

(** The class [[A-Z0-9_]] of the guard pattern. *)
Definition isMacroChar (c : ascii) : bool :=
  isUpper c || isDigit c || isUnderscore c.

(** The class [[A-Z0-9]] whose complement [computeMacro] replaces. *)
Definition isUpperAlnum (c : ascii) : bool := isUpper c || isDigit c.

(** [\s], which is also what [trim] strips: tab, line feed, vertical tab,
    form feed, carriage return, space and no-break space. *)
Definition isSpace (c : ascii) : bool :=
  inRange 9 13 c || (code c =? 32) || (code c =? 160).

(** [.] matches everything but a line terminator. *)
Definition isDot (c : ascii) : bool :=
  negb ((code c =? 10) || (code c =? 13)).

Definition nl : ascii := ascii_of_nat 10.
Definition cr : ascii := ascii_of_nat 13.

Fixpoint eqs (a b : jsstring) : bool :=
  match a, b with
  | [], [] => true
  | x :: a', y :: b' => Ascii.eqb x y && eqs a' b'
  | _, _ => false
  end.

Fixpoint startsWith (w s : jsstring) : bool :=
  match w, s with
  | [], _ => true
  | a :: w', b :: s' => Ascii.eqb a b && startsWith w' s'
  | _ :: _, [] => false
  end.

Definition endsWith (w s : jsstring) : bool := startsWith (rev w) (rev s).

Fixpoint dropWhile (p : ascii -> bool) (s : jsstring) : jsstring :=
  match s with
  | [] => []
  | c :: r => if p c then dropWhile p r else s
  end.

Fixpoint takeWhile (p : ascii -> bool) (s : jsstring) : jsstring :=
  match s with
  | [] => []
  | c :: r => if p c then c :: takeWhile p r else []
  end.

(** [String.prototype.trim]. *)
Definition trim (s : jsstring) : jsstring :=
  rev (dropWhile isSpace (rev (dropWhile isSpace s))).

(** [String.prototype.toUpperCase] on one code unit.  Sharp s becomes two
    units.  The upper-case forms of the micro sign (181) and of y with
    diaeresis (255) lie above 255; these two units are kept, which the only
    caller cannot tell apart, as it replaces every unit outside [[A-Z0-9]]
    next. *)
Definition upperUnit (c : ascii) : jsstring :=
  if isLower c then [ascii_of_nat (code c - 32)]
  else if code c =? 223 then str "SS"
  else if inRange 224 254 c && negb (code c =? 247)
       then [ascii_of_nat (code c - 32)]
  else [c].

Definition toUpperCase (s : jsstring) : jsstring := flat_map upperUnit s.

(** [String.prototype.toLowerCase] on one code unit. *)
Definition lowerUnit (c : ascii) : ascii :=
  if isUpper c then ascii_of_nat (code c + 32)
  else if inRange 192 222 c && negb (code c =? 215)
       then ascii_of_nat (code c + 32)
  else c.

Definition toLowerCase (s : jsstring) : jsstring := map lowerUnit s.

(** The lines of a text: broken at LF, CR LF and CR, as the editor does with
    inserted text.  A text always has at least one line. *)
Fixpoint splitLines (t : jsstring) : list jsstring :=
  match t with
  | [] => [[]]
  | c :: r =>
      if Ascii.eqb c nl then [] :: splitLines r
      else if Ascii.eqb c cr then
        match r with
        | c' :: r' => if Ascii.eqb c' nl then [] :: splitLines r'
                      else [] :: splitLines r
        | [] => [] :: splitLines r
        end
      else match splitLines r with
           | l :: ls => (c :: l) :: ls
           | [] => [[c]]
           end
  end.

(** ** Regular expressions

    The five patterns of the extension.  In each of them a greedy [\s*] or
    [\s+] is followed by a character that is not white space, and the
    capture group is followed by nothing, so the longest run is the only one
    a backtracking matcher can succeed with. *)

Definition isWordAt (o : option ascii) : bool :=
  match o with
  | Some c => isWordChar c
  | None => false
  end.

(** [\b] between the unit before a position and the unit after it. *)
Definition wordBoundary (prev next : option ascii) : bool :=
  xorb (isWordAt prev) (isWordAt next).

(** [^\s*#\s*kw]: the text that follows the keyword. *)
Definition directive (kw t : jsstring) : option jsstring :=
  match dropWhile isSpace t with
  | c :: r =>
      if Ascii.eqb c "#" then
        let r' := dropWhile isSpace r in
        if startsWith kw r' then Some (skipn (length kw) r') else None
      else None
  | [] => None
  end.

(** [\s+]: the text that follows the white space. *)
Definition spaces1 (t : jsstring) : option jsstring :=
  match t with
  | c :: r => if isSpace c then Some (dropWhile isSpace r) else None
  | [] => None
  end.

(** [/^\s*#\s*pragma\s+once\b/.test(t)] *)
Definition rePragmaOnce (t : jsstring) : bool :=
  match directive (str "pragma") t with
  | Some r =>
      match spaces1 r with
      | Some r' =>
          startsWith (str "once") r'
          && wordBoundary (Some "e") (hd_error (skipn 4 r'))
      | None => false
      end
  | None => false
  end.

(** [t.match(/^\s*#\s*ifndef\s+([A-Z0-9_]+)/)]: the first group. *)
Definition reIfndef (t : jsstring) : option jsstring :=
  match directive (str "ifndef") t with
  | Some r =>
      match spaces1 r with
      | Some r' =>
          match takeWhile isMacroChar r' with
          | [] => None
          | m => Some m
          end
      | None => None
      end
  | None => None
  end.

(** [new RegExp(`^\\s*#\\s*define\\s+${macro}\\b`).test(t)], for a macro
    without pattern characters. *)
Definition reDefine (macro t : jsstring) : bool :=
  match directive (str "define") t with
  | Some r =>
      match spaces1 r with
      | Some r' =>
          startsWith macro r'
          && wordBoundary (Some (last macro " "))
                          (hd_error (skipn (length macro) r'))
      | None => false
      end
  | None => false
  end.

(** [/^\s*#\s*endif\b/.test(t)] *)
Definition reEndif (t : jsstring) : bool :=
  match directive (str "endif") t with
  | Some r => wordBoundary (Some "f") (hd_error r)
  | None => false
  end.

(** [.*\bmacro\b] from a position whose left neighbour is [prev]. *)
Fixpoint wordOccurs (macro : jsstring) (prev : ascii) (r : jsstring) : bool :=
  (startsWith macro r
   && wordBoundary (Some prev) (hd_error r)
   && wordBoundary (Some (last macro prev))
                   (hd_error (skipn (length macro) r)))
  || match r with
     | [] => false
     | c :: r' => isDot c && wordOccurs macro c r'
     end.

(** [new RegExp(`^\\s*#\\s*endif\\b.*\\b${macro}\\b`).test(t)] *)
Definition reEndifMacro (macro t : jsstring) : bool :=
  match directive (str "endif") t with
  | Some r => wordBoundary (Some "f") (hd_error r) && wordOccurs macro "f" r
  | None => false
  end.

(** [/_H(PP|H|XX)?$/.test(m)] *)
Definition reHeaderSuffix (m : jsstring) : bool :=
  endsWith (str "_H") m || endsWith (str "_HPP") m
  || endsWith (str "_HH") m || endsWith (str "_HXX") m.

(** ** Node's [path], POSIX flavour *)

Definition isSlash (c : ascii) : bool := Ascii.eqb c "/".

(** [path.basename(p)]: the last portion, trailing separators ignored. *)
Definition basename (p : jsstring) : jsstring :=
  rev (takeWhile (fun c => negb (isSlash c)) (dropWhile isSlash (rev p))).

(** [path.extname(p)]: from the last dot of the last portion; empty when
    there is no dot, when the only dot comes first, and for [..]. *)
Definition extname (p : jsstring) : jsstring :=
  let b := basename p in
  let ext := rev (takeWhile (fun c => negb (Ascii.eqb c ".")) (rev b)) in
  if length b <=? length ext then []
  else if length ext + 1 =? length b then []
  else if eqs b (str "..") then []
  else "." :: ext.

(** ** The editor host

    The document is owned by the editor: the extension reads it through
    [lineCount] and [lineAt] and changes it through [TextEditor.edit].  The
    callback of [edit] adds insertions and deletions, all in coordinates of
    the document before the edit; the editor commits them as one
    transaction or not at all.  This part of the file is a model of the
    editor (VS Code), which is not part of the repository: positions outside
    the document are moved into it, a batch with overlapping ranges is
    refused, ranges that touch are accepted.  A document is a list of lines;
    the editor never has an empty one, but nothing below depends on that. *)

Record Position := mkPosition { line : nat; character : nat }.

Record Range := mkRange { rstart : Position; rend : Position }.

Record TextEdit := mkEdit { range : Range; newText : jsstring }.

Record TextDocument := mkDocument {
  fileName : jsstring;
  (** [path.relative(ws.uri.fsPath, fileName)] for the workspace folder [ws]
      that contains the document, when there is one. *)
  workspaceRelative : option jsstring;
  lines : list jsstring
}.

Definition lineCount (d : TextDocument) : nat := length (lines d).

(** [doc.lineAt(i).text]; every call of the extension has [i < lineCount]. *)
Definition lineAt (d : TextDocument) (i : nat) : jsstring := nth i (lines d) [].

Definition setLines (d : TextDocument) (L : list jsstring) : TextDocument :=
  mkDocument (fileName d) (workspaceRelative d) L.

(** [a.isBefore(b)] *)
Definition isBefore (a b : Position) : bool :=
  (line a <? line b) || ((line a =? line b) && (character a <? character b)).

(** [new vscode.Range(l1, c1, l2, c2)]: the two ends in order. *)
Definition newRange (l1 c1 l2 c2 : nat) : Range :=
  let a := mkPosition l1 c1 in
  let b := mkPosition l2 c2 in
  if isBefore b a then mkRange b a else mkRange a b.

(** [builder.insert(pos, text)] and [builder.delete(range)]. *)
Definition insertAt (p : Position) (text : jsstring) : TextEdit :=
  mkEdit (mkRange p p) text.

Definition deleteRange (r : Range) : TextEdit := mkEdit r [].

(** The order in which the host sorts ranges: by end, then by start. *)
Definition rangeLtb (a b : Range) : bool :=
  isBefore (rend a) (rend b)
  || (negb (isBefore (rend b) (rend a)) && isBefore (rstart a) (rstart b)).

(** A stable sort: among equal ranges the edit added first comes first. *)
Fixpoint insertSorted {A : Type} (key : A -> Range) (e : A) (l : list A)
  : list A :=
  match l with
  | [] => [e]
  | x :: l' =>
      if rangeLtb (key x) (key e) then x :: insertSorted key e l'
      else e :: l
  end.

Definition sortByRange {A : Type} (key : A -> Range) (l : list A) : list A :=
  fold_right (insertSorted key) [] l.

(** Two neighbours of the sorted ranges overlap when the later one starts
    before the earlier one ends; ranges that only touch do not. *)
Fixpoint overlapping (l : list Range) : bool :=
  match l with
  | a :: (b :: _) as t => isBefore (rstart b) (rend a) || overlapping t
  | _ => false
  end.

(** A position outside the document is moved to the nearest one inside. *)
Definition validatePosition (L : list jsstring) (p : Position) : Position :=
  if length L <=? line p
  then mkPosition (length L - 1) (length (nth (length L - 1) L []))
  else mkPosition (line p) (Nat.min (character p) (length (nth (line p) L []))).

Definition validateEdit (L : list jsstring) (e : TextEdit) : TextEdit :=
  mkEdit (mkRange (validatePosition L (rstart (range e)))
                  (validatePosition L (rend (range e))))
         (newText e).

Fixpoint appendToLast (l : list jsstring) (tail : jsstring) : list jsstring :=
  match l with
  | [] => [tail]
  | [x] => [x ++ tail]
  | x :: r => x :: appendToLast r tail
  end.

(** The lines of [head ++ text ++ tail], where [head] and [tail] are parts of
    lines of the document. *)
Definition glue (head text tail : jsstring) : list jsstring :=
  match splitLines text with
  | p :: ps => appendToLast ((head ++ p) :: ps) tail
  | [] => [head ++ tail]
  end.

(** One replacement: the text of the range goes, the new text comes. *)
Definition spliceLines (L : list jsstring) (e : TextEdit) : list jsstring :=
  let s := rstart (range e) in
  let f := rend (range e) in
  firstn (line s) L
  ++ glue (firstn (character s) (nth (line s) L []))
          (newText e)
          (skipn (character f) (nth (line f) L []))
  ++ skipn (S (line f)) L.

(** The transaction.  Every range is moved into the document when the edit is
    added.  The host refuses a batch with overlapping ranges and leaves the
    document as it is.  Otherwise it sorts the edits and applies them from
    the last to the first, so that the coordinates of the edits still to come
    stay valid; of two insertions at one position the text added first comes
    first. *)
Definition applyEdits (L : list jsstring) (edits : list TextEdit)
  : option (list jsstring) :=
  let valid := map (validateEdit L) edits in
  if overlapping (sortByRange (fun r => r) (map range valid)) then None
  else Some (fold_right (fun e acc => spliceLines acc e) L
                        (sortByRange range valid)).

(** ** The extension *)

Inductive Outcome : Type :=
| NotAHeader        (* warning: the file is not a C/C++ header *)
| AlreadyProtected  (* information: the protection is already there *)
| Edited            (* the transaction was committed *)
| EditRejected.     (* the host refused the transaction *)

(** [await ed.edit(builder => ...)] with the edits the callback adds. *)
Definition edit (d : TextDocument) (edits : list TextEdit)
  : Outcome * TextDocument :=
  match applyEdits (lines d) edits with
  | Some L => (Edited, setLines d L)
  | None => (EditRejected, d)
  end.

Definition headerExtensions : list jsstring :=
  [str ".h"; str ".hpp"; str ".hh"; str ".hxx"].

Definition isHeader (d : TextDocument) : bool :=
  existsb (eqs (toLowerCase (extname (fileName d)))) headerExtensions.

(** The test that ends the scan of [hasPragmaOnce]: a line with content
    that opens neither a line comment nor a block comment. *)
Definition isSubstantive (t : jsstring) : bool :=
  negb (eqs (trim t) [])
  && negb (startsWith (str "//") (trim t))
  && negb (startsWith (str "/*") (trim t)).

(** The loop of [hasPragmaOnce] from line [i], with [n] lines to go. *)
Fixpoint pragmaScan (d : TextDocument) (i n : nat) : bool :=
  match n with
  | 0 => false
  | S n' =>
      let t := lineAt d i in
      if rePragmaOnce t then true
      else if isSubstantive t then false
      else pragmaScan d (S i) n'
  end.

Definition hasPragmaOnce (d : TextDocument) : bool :=
  pragmaScan d 0 (Nat.min 50 (lineCount d)).

(** [for (i = lo; i < lo + n; i++) if (p(i)) { found = i; break; }] *)
Fixpoint findUp (p : nat -> bool) (lo n : nat) : option nat :=
  match n with
  | 0 => None
  | S n' => if p lo then Some lo else findUp p (S lo) n'
  end.

(** [for (k = n - 1; k >= 0; k--) if (p(k)) { found = k; break; }] *)
Fixpoint findDown (p : nat -> bool) (n : nat) : option nat :=
  match n with
  | 0 => None
  | S k => if p k then Some k else findDown p k
  end.

Record GuardInfo := mkGuard {
  macro : jsstring;
  ifndefLine : nat;
  defineLine : nat;
  endifLine : nat
}.

Definition isSome {A : Type} (o : option A) : bool :=
  match o with
  | Some _ => true
  | None => false
  end.

(** The first loop of [extractGuardMacro]: the first [#ifndef] among the
    first 60 lines and, when found, the [#define] of its macro among the five
    lines after it. *)
Definition findHeaderPair (d : TextDocument)
  : option (jsstring * nat * option nat) :=
  let maxTop := Nat.min 60 (lineCount d) in
  match findUp (fun i => isSome (reIfndef (lineAt d i))) 0 maxTop with
  | Some i =>
      match reIfndef (lineAt d i) with
      | Some m =>
          Some (m, i,
                findUp (fun j => reDefine m (lineAt d j))
                       (i + 1) (Nat.min (i + 6) maxTop - (i + 1)))
      | None => None
      end
  | None => None
  end.

(** The two loops that look for the closing [#endif] from the bottom. *)
Definition findEndif (d : TextDocument) (m : jsstring) : option nat :=
  match findDown (fun k => reEndifMacro m (lineAt d k)) (lineCount d) with
  | Some k => Some k
  | None => findDown (fun k => reEndif (lineAt d k)) (lineCount d)
  end.

Definition extractGuardMacro (d : TextDocument) : option GuardInfo :=
  match findHeaderPair d with
  | Some (m, i, Some j) =>
      match findEndif d m with
      | Some k => Some (mkGuard m i j k)
      | None => None
      end
  | _ => None
  end.

Definition underscoreUnless (p : ascii -> bool) (c : ascii) : ascii :=
  if p c then c else "_".

(** [rel.toUpperCase().replace(/[^A-Z0-9]/g, '_')] *)
Definition sanitize (rel : jsstring) : jsstring :=
  map (underscoreUnless isUpperAlnum) (toUpperCase rel).

Definition computeMacro (d : TextDocument) : jsstring :=
  let rel := match workspaceRelative d with
             | Some r => r
             | None => basename (fileName d)
             end in
  let m := sanitize rel in
  if reHeaderSuffix m then m else m ++ str "_H".




(** An identifier of the C preprocessor: a letter or an underscore, then
    letters, digits and underscores. *)
Definition isIdentifier (s : jsstring) : bool :=
  match s with
  | c :: r => (isUpper c || isLower c || isUnderscore c) && forallb isWordChar r
  | [] => false
  end.


(** [`#ifndef ${macro}\n#define ${macro}\n\n`] *)
Definition guardHeader (m : jsstring) : jsstring :=
  str "#ifndef " ++ m ++ [nl] ++ str "#define " ++ m ++ [nl; nl].

(** [`\n#endif // ${macro}\n`] *)
Definition guardFooter (m : jsstring) : jsstring :=
  [nl] ++ str "#endif // " ++ m ++ [nl].

(** ['#pragma once\n\n'] *)
Definition pragmaText : jsstring := str "#pragma once" ++ [nl; nl].

Definition insertGuardEdits (d : TextDocument) (m : jsstring) : list TextEdit :=
  [insertAt (mkPosition 0 0) (guardHeader m);
   insertAt (mkPosition (lineCount d) 0) (guardFooter m)].

Definition insertGuard (d : TextDocument) : Outcome * TextDocument :=
  if negb (isHeader d) then (NotAHeader, d)
  else if hasPragmaOnce d || isSome (extractGuardMacro d)
       then (AlreadyProtected, d)
  else edit d (insertGuardEdits d (computeMacro d)).

(** The two deletions that remove a classic guard. *)
Definition removeGuardEdits (d : TextDocument) (g : GuardInfo) : list TextEdit :=
  [deleteRange (newRange (ifndefLine g) 0 (defineLine g + 1) 0);
   deleteRange (newRange (endifLine g) 0
                         (endifLine g) (length (lineAt d (endifLine g))))].

Definition usePragmaOnce (d : TextDocument) : Outcome * TextDocument :=
  if negb (isHeader d) then (NotAHeader, d)
  else if hasPragmaOnce d then (AlreadyProtected, d)
  else edit d (insertAt (mkPosition 0 0) pragmaText
               :: match extractGuardMacro d with
                  | Some g => removeGuardEdits d g
                  | None => []
                  end).

(** The loop of [toggleGuardOrPragma] that removes [#pragma once], from line
    [i] with [n] lines to go: the deletions it adds. *)
Fixpoint pragmaDeletions (d : TextDocument) (i n : nat) : list TextEdit :=
  match n with
  | 0 => []
  | S n' =>
      let t := lineAt d i in
      if rePragmaOnce t then
        deleteRange (newRange i 0 i (length t))
        :: (if (i + 1 <? lineCount d) && eqs (trim (lineAt d (i + 1))) []
            then [deleteRange (newRange (i + 1) 0
                                        (i + 1) (length (lineAt d (i + 1))))]
            else [])
      else if negb (eqs (trim t) []) then []
      else pragmaDeletions d (S i) n'
  end.

Definition toggleGuardOrPragma (d : TextDocument) : Outcome * TextDocument :=
  if negb (isHeader d) then (NotAHeader, d)
  else if hasPragmaOnce d then
    edit d (pragmaDeletions d 0 (Nat.min 50 (lineCount d))
            ++ insertGuardEdits d (computeMacro d))
  else match extractGuardMacro d with
       | Some g =>
           edit d (insertAt (mkPosition 0 0) pragmaText :: removeGuardEdits d g)
       | None => insertGuard d
       end.

(** The state shown in the status bar, recomputed from the document. *)
Inductive ProtectionKind : Type := PragmaOnce | Guard | NoProtection.

Definition protectionKind (d : TextDocument) : ProtectionKind :=
  if hasPragmaOnce d then PragmaOnce
  else if isSome (extractGuardMacro d) then Guard
  else NoProtection.



Inductive Operation : Type := InsertGuard | UsePragmaOnce | Toggle.

Definition applyOperation (op : Operation) (d : TextDocument)
  : Outcome * TextDocument :=
  match op with
  | InsertGuard => insertGuard d
  | UsePragmaOnce => usePragmaOnce d
  | Toggle => toggleGuardOrPragma d
  end.





Definition doc (name : string) (ls : list string) : TextDocument :=
  mkDocument (str name) None (map str ls).

(** ** Vocabulary of the statements *)

(** The three lines of a guard as the extension writes them. *)
Definition ifndefText (m : jsstring) : jsstring := str "#ifndef " ++ m.
Definition defineText (m : jsstring) : jsstring := str "#define " ++ m.
Definition endifText (m : jsstring) : jsstring := str "#endif // " ++ m.

(** A text without a line terminator. *)
Definition noBreak (s : jsstring) : bool :=
  forallb (fun c => negb (Ascii.eqb c nl || Ascii.eqb c cr)) s.

(** A macro name as the [#ifndef] pattern captures it. *)
Definition validMacro (m : jsstring) : Prop :=
  m <> [] /\ forallb isMacroChar m = true.

(** The document with the text of line [k] deleted; the line stays. *)
Definition clearLine (k : nat) (L : list jsstring) : list jsstring :=
  firstn k L ++ [[]] ++ skipn (S k) L.

(** The lines [UsePragmaOnce] leaves of a guarded document: the pragma and an
    empty line, the lines above [#ifndef], the lines below [#define], with the
    text of the [#endif] line deleted. *)
Definition pragmaOnceLines (g : GuardInfo) (L : list jsstring)
  : list jsstring :=
  str "#pragma once" :: [] ::
  firstn (ifndefLine g) (clearLine (endifLine g) L)
  ++ (if defineLine g + 1 <? length L
      then skipn (defineLine g + 1) (clearLine (endifLine g) L)
      else [[]]).

(** The lines of a document after the loop of [toggleGuardOrPragma] has
    deleted the pragma of line [i]: the text of that line goes, and the text
    of the line below when that line is blank. *)
Definition pragmaRemoved (d : TextDocument) (i : nat) : list jsstring :=
  if (i + 1 <? lineCount d) && eqs (trim (lineAt d (i + 1))) []
  then clearLine i (clearLine (i + 1) (lines d))
  else clearLine i (lines d).

(** A character of a file name that is neither a separator nor a dot. *)
Definition plainChar (c : ascii) : bool :=
  negb (isSlash c) && negb (Ascii.eqb c ".").

(** ** Documents used as examples *)

Local Open Scope string_scope.

Definition cppFile : TextDocument :=
  doc "src/main.cpp" ["#ifndef FOO_H"; "#define FOO_H"; "#endif"].

Definition pragmaFile : TextDocument :=
  doc "include/a.h" ["#pragma once"; ""; "int x;"].

Definition guardedFile : TextDocument :=
  doc "include/foo.h"
      ["#ifndef FOO_H"; "#define FOO_H"; "int x;"; "#endif // FOO_H"].

Definition bareEndifFile : TextDocument :=
  doc "include/foo.h" ["#ifndef FOO_H"; "#define FOO_H"; "int x;"; "#endif"].

Definition loneIfndefFile : TextDocument :=
  doc "include/foo.h"
      ["#ifndef FOO_H"; "int x;"; "#ifndef BAR_H"; "#define BAR_H"; "#endif"].

Definition plainFile : TextDocument := doc "src/utils/math.h" ["int x;"].

Definition emptyFile : TextDocument := doc "src/utils/math.h" [""].

(** The only [#endif] stands above the header pair. *)
Definition endifFirstFile : TextDocument :=
  doc "a.h" ["#endif"; "#ifndef A"; "#define A"; "int x;"].

(** The only [#endif] stands between [#ifndef] and [#define]. *)
Definition endifInsideFile : TextDocument :=
  doc "a.h" ["#ifndef A"; "#endif"; "#define A"; "int x;"].

(** A comment above the pragma, as in a file with a licence header. *)
Definition commentedPragmaFile : TextDocument :=
  doc "a.h" ["// licence"; "#pragma once"; "int x;"].

Definition digitFile : TextDocument := doc "1file.h" ["int x;"].

Local Close Scope string_scope.


(** * Properties *)

#[local] Arguments Nat.min : simpl never.
#[local] Arguments Nat.sub : simpl never.

(** ** Code units *)

Ltac by_cases_on_unit c :=
  destruct c as [[] [] [] [] [] [] [] []]; vm_compute; intuition congruence.

Lemma macroChar_wordChar c : isMacroChar c = true -> isWordChar c = true.
Proof. by_cases_on_unit c. Qed.

Lemma macroChar_not_space c : isMacroChar c = true -> isSpace c = false.
Proof. by_cases_on_unit c. Qed.

Lemma macroChar_not_nl c : isMacroChar c = true -> Ascii.eqb c nl = false.
Proof. by_cases_on_unit c. Qed.

Lemma macroChar_not_cr c : isMacroChar c = true -> Ascii.eqb c cr = false.
Proof. by_cases_on_unit c. Qed.

Lemma underscoreUnless_macroChar c :
  isMacroChar (underscoreUnless isUpperAlnum c) = true.
Proof. by_cases_on_unit c. Qed.

(** ** Strings *)

Lemma eqs_eq a : forall b, eqs a b = true <-> a = b.
Proof.
  induction a as [|x a IH]; destruct b as [|y b]; simpl;
    try (split; [discriminate | congruence]); try tauto.
  rewrite andb_true_iff, Ascii.eqb_eq, IH. split.
  - intros [-> ->]. reflexivity.
  - intros H. inversion H. auto.
Qed.

Lemma startsWith_app w r : startsWith w (w ++ r) = true.
Proof.
  induction w as [|a w IH]; simpl; [reflexivity|].
  rewrite Ascii.eqb_refl. exact IH.
Qed.

Lemma skipn_length_app {A} (w r : list A) : skipn (length w) (w ++ r) = r.
Proof. induction w; simpl; auto. Qed.

Lemma dropWhile_stop p c r : p c = false -> dropWhile p (c :: r) = c :: r.
Proof. intros H. simpl. rewrite H. reflexivity. Qed.

Lemma takeWhile_all p m r :
  forallb p m = true ->
  match r with [] => True | c :: _ => p c = false end ->
  takeWhile p (m ++ r) = m.
Proof.
  intros Hm Hr. induction m as [|a m IH]; simpl in *.
  - destruct r as [|c r]; simpl; [reflexivity|]. rewrite Hr. reflexivity.
  - apply andb_true_iff in Hm. destruct Hm as [Ha Hm].
    rewrite Ha. f_equal. apply IH, Hm.
Qed.

(** ** The three loops *)

Section Loops.

Variable p : nat -> bool.

Lemma findUp_Some : forall n lo i,
  findUp p lo n = Some i <->
  lo <= i < lo + n /\ p i = true /\ forall j, lo <= j < i -> p j = false.
Proof.
  induction n as [|n IH]; intros lo i; simpl.
  - split; [discriminate | intros [H _]; lia].
  - destruct (p lo) eqn:E.
    + split.
      * intros H. inversion H. subst i. repeat split; try lia; auto.
      * intros (Hr & Hp & Hall). f_equal.
        destruct (Nat.eq_dec lo i) as [|Hne]; [assumption|].
        rewrite (Hall lo) in E by lia. discriminate.
    + rewrite IH. split.
      * intros (Hr & Hp & Hall). repeat split; try lia; auto.
        intros j Hj. destruct (Nat.eq_dec j lo) as [->|]; [exact E|].
        apply Hall. lia.
      * intros (Hr & Hp & Hall).
        assert (lo <> i) by (intros ->; congruence).
        repeat split; try lia; auto. intros j Hj. apply Hall. lia.
Qed.

Lemma findUp_None : forall n lo,
  findUp p lo n = None <-> forall j, lo <= j < lo + n -> p j = false.
Proof.
  induction n as [|n IH]; intros lo; simpl.
  - split; [intros _ j Hj; lia | reflexivity].
  - destruct (p lo) eqn:E.
    + split; [discriminate|]. intros H. rewrite H in E by lia. discriminate.
    + rewrite IH. split; intros H j Hj.
      * destruct (Nat.eq_dec j lo) as [->|]; [exact E|]. apply H. lia.
      * apply H. lia.
Qed.

Lemma findDown_Some : forall n k,
  findDown p n = Some k <->
  k < n /\ p k = true /\ forall j, k < j < n -> p j = false.
Proof.
  induction n as [|n IH]; intros k; simpl.
  - split; [discriminate | intros [H _]; lia].
  - destruct (p n) eqn:E.
    + split.
      * intros H. inversion H. subst k. repeat split; try lia; auto.
      * intros (Hr & Hp & Hall). f_equal.
        destruct (Nat.eq_dec n k) as [|Hne]; [assumption|].
        rewrite (Hall n) in E by lia. discriminate.
    + rewrite IH. split.
      * intros (Hr & Hp & Hall). repeat split; try lia; auto.
        intros j Hj. destruct (Nat.eq_dec j n) as [->|]; [exact E|].
        apply Hall. lia.
      * intros (Hr & Hp & Hall).
        assert (n <> k) by (intros ->; congruence).
        repeat split; try lia; auto. intros j Hj. apply Hall. lia.
Qed.

Lemma findDown_None : forall n,
  findDown p n = None <-> forall j, j < n -> p j = false.
Proof.
  induction n as [|n IH]; simpl.
  - split; [intros _ j Hj; lia | reflexivity].
  - destruct (p n) eqn:E.
    + split; [discriminate|]. intros H. rewrite H in E by lia. discriminate.
    + rewrite IH. split; intros H j Hj.
      * destruct (Nat.eq_dec j n) as [->|]; [exact E|]. apply H. lia.
      * apply H. lia.
Qed.

Lemma findDown_exists n k :
  k < n -> p k = true -> exists k', findDown p n = Some k' /\ k <= k'.
Proof.
  intros Hk Hp. destruct (findDown p n) as [k'|] eqn:E.
  - exists k'. split; [reflexivity|].
    apply findDown_Some in E. destruct E as (Hk' & _ & Hall).
    destruct (le_lt_dec k k') as [|Hlt]; [assumption|].
    rewrite (Hall k) in Hp by lia. discriminate.
  - rewrite findDown_None in E. rewrite E in Hp by assumption. discriminate.
Qed.

End Loops.

Lemma isSubstantive_false t :
  isSubstantive t = false <->
  trim t = [] \/ startsWith (str "//") (trim t) = true
  \/ startsWith (str "/*") (trim t) = true.
Proof.
  unfold isSubstantive.
  destruct (eqs (trim t) []) eqn:E1;
    destruct (startsWith (str "//") (trim t)) eqn:E2;
    destruct (startsWith (str "/*") (trim t)) eqn:E3; simpl;
    try (apply eqs_eq in E1);
    try (split; [auto | reflexivity]; fail).
  split; [discriminate|].
  intros [H | [H | H]]; try discriminate.
  rewrite <- eqs_eq in H. congruence.
Qed.

Lemma pragmaScan_true d : forall n i,
  pragmaScan d i n = true <->
  exists k, k < n /\ rePragmaOnce (lineAt d (i + k)) = true
            /\ forall j, j < k -> isSubstantive (lineAt d (i + j)) = false.
Proof.
  induction n as [|n IH]; intros i; simpl.
  - split; [discriminate | intros (k & Hk & _); lia].
  - destruct (rePragmaOnce (lineAt d i)) eqn:E.
    + split; [|reflexivity]. intros _. exists 0.
      rewrite Nat.add_0_r. repeat split; [lia | exact E | intros j Hj; lia].
    + destruct (isSubstantive (lineAt d i)) eqn:Sb.
      * split; [discriminate|]. intros (k & Hk & Hp & Hall).
        destruct k as [|k].
        -- rewrite Nat.add_0_r in Hp. congruence.
        -- specialize (Hall 0). rewrite Nat.add_0_r in Hall.
           rewrite Hall in Sb by lia. discriminate.
      * rewrite IH. split.
        -- intros (k & Hk & Hp & Hall). exists (S k).
           rewrite Nat.add_succ_r. repeat split; [lia | exact Hp |].
           intros j Hj. destruct j as [|j].
           ++ rewrite Nat.add_0_r. exact Sb.
           ++ rewrite Nat.add_succ_r. apply Hall. lia.
        -- intros (k & Hk & Hp & Hall). destruct k as [|k].
           ++ rewrite Nat.add_0_r in Hp. congruence.
           ++ exists k. rewrite Nat.add_succ_r in Hp.
              repeat split; [lia | exact Hp |].
              intros j Hj. specialize (Hall (S j)).
              rewrite Nat.add_succ_r in Hall. apply Hall. lia.
Qed.

(** ** The pragma detector *)

(** C3.  [hasPragmaOnce] answers true exactly when one of the first
    [min(50, lineCount)] lines matches the pragma pattern and every line
    before it is blank or opens a comment; it answers false as soon as a
    substantive line comes with no pragma match up to it. *)
Theorem hasPragmaOnce_spec (d : TextDocument) :
  (hasPragmaOnce d = true <->
   exists i, i < Nat.min 50 (lineCount d)
     /\ rePragmaOnce (lineAt d i) = true
     /\ forall j, j < i ->
          trim (lineAt d j) = []
          \/ startsWith (str "//") (trim (lineAt d j)) = true
          \/ startsWith (str "/*") (trim (lineAt d j)) = true)
  /\ (forall i, i < Nat.min 50 (lineCount d) ->
        isSubstantive (lineAt d i) = true ->
        (forall j, j <= i -> rePragmaOnce (lineAt d j) = false) ->
        hasPragmaOnce d = false).
Proof.
  assert (Hiff : hasPragmaOnce d = true <->
    exists i, i < Nat.min 50 (lineCount d)
      /\ rePragmaOnce (lineAt d i) = true
      /\ forall j, j < i -> isSubstantive (lineAt d j) = false).
  { unfold hasPragmaOnce. rewrite pragmaScan_true. reflexivity. }
  split.
  - rewrite Hiff. split; intros (i & Hi & Hp & Hall); exists i;
      repeat split; auto; intros j Hj; apply isSubstantive_false; auto.
  - intros i Hi Hs Hno. apply not_true_is_false. intros E.
    apply Hiff in E. destruct E as (k & Hk & Hp & Hall).
    destruct (le_lt_dec k i) as [Hle|Hlt].
    + rewrite Hno in Hp by assumption. discriminate.
    + rewrite Hall in Hs by assumption. discriminate.
Qed.

(** ** The guard extractor *)

Lemma reEndifMacro_reEndif m t : reEndifMacro m t = true -> reEndif t = true.
Proof.
  unfold reEndifMacro, reEndif.
  destruct (directive (str "endif") t); [|discriminate].
  intros H. apply andb_true_iff in H. tauto.
Qed.

Lemma isSome_true {A} (o : option A) : isSome o = true <-> o <> None.
Proof. destruct o; simpl; split; congruence. Qed.

Lemma isSome_false {A} (o : option A) : isSome o = false <-> o = None.
Proof. destruct o; simpl; split; congruence. Qed.

Lemma findHeaderPair_Some d m i oj :
  findHeaderPair d = Some (m, i, oj) <->
  i < Nat.min 60 (lineCount d)
  /\ reIfndef (lineAt d i) = Some m
  /\ (forall k, k < i -> reIfndef (lineAt d k) = None)
  /\ oj = findUp (fun j => reDefine m (lineAt d j)) (i + 1)
                 (Nat.min (i + 6) (Nat.min 60 (lineCount d)) - (i + 1)).
Proof.
  unfold findHeaderPair.
  destruct (findUp _ 0 (Nat.min 60 (lineCount d))) as [i'|] eqn:E.
  - apply findUp_Some in E. destruct E as (Hr & Hp & Hall).
    apply isSome_true in Hp.
    destruct (reIfndef (lineAt d i')) as [m'|] eqn:Em; [|congruence].
    split.
    + intros H. inversion H. subst. repeat split; auto; try lia.
      intros k Hk. apply isSome_false. apply Hall. lia.
    + intros (Hi & Hm & Hno & ->).
      assert (i = i').
      { destruct (lt_eq_lt_dec i i') as [[Hlt|Heq]|Hgt]; [|assumption|].
        - specialize (Hall i). rewrite Hm in Hall. simpl in Hall.
          assert (true = false) by (apply Hall; lia). discriminate.
        - rewrite Hno in Em by assumption. discriminate. }
      subst i'. rewrite Hm in Em. inversion Em. reflexivity.
  - rewrite findUp_None in E. split; [discriminate|].
    intros (Hi & Hm & _). specialize (E i). rewrite Hm in E. simpl in E.
    assert (true = false) by (apply E; lia). discriminate.
Qed.

(** C4.  A guard that [extractGuardMacro] returns starts at the first line
    among the first [min(60, lineCount)] that matches the [#ifndef] pattern,
    its [#define] line defines the same macro and lies at most five lines
    below; and when that first [#ifndef] has no such [#define], nothing is
    returned, whatever comes later. *)
Theorem extractGuard_header_pair (d : TextDocument) :
  (forall g, extractGuardMacro d = Some g ->
     ifndefLine g < Nat.min 60 (lineCount d)
     /\ reIfndef (lineAt d (ifndefLine g)) = Some (macro g)
     /\ (forall i, i < ifndefLine g -> reIfndef (lineAt d i) = None)
     /\ reDefine (macro g) (lineAt d (defineLine g)) = true
     /\ ifndefLine g < defineLine g <= ifndefLine g + 5
     /\ defineLine g < Nat.min 60 (lineCount d))
  /\ (forall i m,
        i < Nat.min 60 (lineCount d) ->
        reIfndef (lineAt d i) = Some m ->
        (forall k, k < i -> reIfndef (lineAt d k) = None) ->
        (forall j, i < j <= i + 5 -> j < Nat.min 60 (lineCount d) ->
                   reDefine m (lineAt d j) = false) ->
        extractGuardMacro d = None).
Proof.
  split.
  - intros g Hg. unfold extractGuardMacro in Hg.
    destruct (findHeaderPair d) as [[[m i] [j|]]|] eqn:E; try discriminate.
    destruct (findEndif d m) as [k|]; [|discriminate].
    inversion Hg. subst g. simpl.
    apply findHeaderPair_Some in E. destruct E as (Hi & Hm & Hno & Hj).
    symmetry in Hj. apply findUp_Some in Hj. destruct Hj as (Hr & Hp & _).
    repeat split; auto; lia.
  - intros i m Hi Hm Hno Hdef. unfold extractGuardMacro.
    assert (E : findHeaderPair d = Some (m, i, None)).
    { apply findHeaderPair_Some. repeat split; auto.
      symmetry. apply findUp_None. intros j Hj. apply Hdef; lia. }
    rewrite E. reflexivity.
Qed.

(** C5.  Once the header pair with macro [m] is found, the guard ends at the
    last line that matches the [#endif] pattern annotated with [m]; without
    such a line, at the last line that matches the bare [#endif] pattern;
    without that either, nothing is returned. *)
Theorem extractGuard_endif (d : TextDocument) (m : jsstring) (i j : nat) :
  findHeaderPair d = Some (m, i, Some j) ->
  (forall k, k < lineCount d ->
     reEndifMacro m (lineAt d k) = true ->
     (forall k', k < k' < lineCount d -> reEndifMacro m (lineAt d k') = false) ->
     extractGuardMacro d = Some (mkGuard m i j k))
  /\ ((forall k, k < lineCount d -> reEndifMacro m (lineAt d k) = false) ->
      forall k, k < lineCount d ->
        reEndif (lineAt d k) = true ->
        (forall k', k < k' < lineCount d -> reEndif (lineAt d k') = false) ->
        extractGuardMacro d = Some (mkGuard m i j k))
  /\ ((forall k, k < lineCount d -> reEndif (lineAt d k) = false) ->
      extractGuardMacro d = None).
Proof.
  intros Hpair. unfold extractGuardMacro, findEndif. rewrite Hpair.
  split; [|split].
  - intros k Hk Hm Hlast.
    assert (E : findDown (fun k => reEndifMacro m (lineAt d k)) (lineCount d)
                = Some k) by (apply findDown_Some; auto).
    rewrite E. reflexivity.
  - intros Hnone k Hk Hb Hlast.
    assert (E1 : findDown (fun k => reEndifMacro m (lineAt d k)) (lineCount d)
                 = None) by (apply findDown_None; auto).
    assert (E2 : findDown (fun k => reEndif (lineAt d k)) (lineCount d)
                 = Some k) by (apply findDown_Some; auto).
    rewrite E1, E2. reflexivity.
  - intros Hnone.
    assert (E1 : findDown (fun k => reEndifMacro m (lineAt d k)) (lineCount d)
                 = None).
    { apply findDown_None. intros k Hk.
      destruct (reEndifMacro m (lineAt d k)) eqn:E; [|reflexivity].
      apply reEndifMacro_reEndif in E. rewrite Hnone in E by assumption.
      discriminate. }
    assert (E2 : findDown (fun k => reEndif (lineAt d k)) (lineCount d)
                 = None) by (apply findDown_None; auto).
    rewrite E1, E2. reflexivity.
Qed.

(** ** Failure paths *)

Lemma edit_outcome d edits :
  fst (edit d edits) = Edited \/ fst (edit d edits) = EditRejected.
Proof. unfold edit. destruct (applyEdits (lines d) edits); simpl; auto. Qed.

Lemma insertGuard_failure d :
  fst (insertGuard d) = NotAHeader \/ fst (insertGuard d) = AlreadyProtected ->
  snd (insertGuard d) = d.
Proof.
  unfold insertGuard. destruct (negb (isHeader d)); [reflexivity|].
  destruct (hasPragmaOnce d || isSome (extractGuardMacro d)); [reflexivity|].
  destruct (edit_outcome d (insertGuardEdits d (computeMacro d))) as [E|E];
    rewrite E; intros [H|H]; discriminate.
Qed.

(** C2.  A command that ends with [NotAHeader] or [AlreadyProtected] leaves
    the document as it was.  [NotAHeader] is the answer of every command on a
    file whose extension is not in the list; [AlreadyProtected] is the answer
    of [InsertGuard] on a header with a pragma or a guard and of
    [UsePragmaOnce] on a header with a pragma. *)
Theorem failure_leaves_document (d : TextDocument) :
  (forall op, isHeader d = false -> applyOperation op d = (NotAHeader, d))
  /\ (isHeader d = true ->
      hasPragmaOnce d = true \/ extractGuardMacro d <> None ->
      insertGuard d = (AlreadyProtected, d))
  /\ (isHeader d = true -> hasPragmaOnce d = true ->
      usePragmaOnce d = (AlreadyProtected, d))
  /\ (forall op,
        fst (applyOperation op d) = NotAHeader
        \/ fst (applyOperation op d) = AlreadyProtected ->
        snd (applyOperation op d) = d).
Proof.
  split; [|split; [|split]].
  - intros op H. destruct op; simpl;
      unfold insertGuard, usePragmaOnce, toggleGuardOrPragma;
      rewrite H; reflexivity.
  - intros H Hp. unfold insertGuard. rewrite H. simpl.
    assert (E : hasPragmaOnce d || isSome (extractGuardMacro d) = true).
    { apply orb_true_iff. destruct Hp as [Hp|Hp]; [left; exact Hp|].
      right. apply isSome_true. exact Hp. }
    rewrite E. reflexivity.
  - intros H Hp. unfold usePragmaOnce. rewrite H, Hp. reflexivity.
  - intros op. destruct op; simpl.
    + apply insertGuard_failure.
    + unfold usePragmaOnce. destruct (negb (isHeader d)); [reflexivity|].
      destruct (hasPragmaOnce d); [reflexivity|].
      match goal with |- context [edit d ?es] =>
        destruct (edit_outcome d es) as [E|E]; rewrite E end;
        intros [H|H]; discriminate.
    + unfold toggleGuardOrPragma. destruct (negb (isHeader d)); [reflexivity|].
      destruct (hasPragmaOnce d).
      * match goal with |- context [edit d ?es] =>
          destruct (edit_outcome d es) as [E|E]; rewrite E end;
          intros [H|H]; discriminate.
      * destruct (extractGuardMacro d) as [g|].
        -- match goal with |- context [edit d ?es] =>
             destruct (edit_outcome d es) as [E|E]; rewrite E end;
             intros [H|H]; discriminate.
        -- apply insertGuard_failure.
Qed.

(** ** The statements on the example documents *)

Lemma failure_leaves_document_witness :
  snd (applyOperation Toggle cppFile) = cppFile
  /\ snd (applyOperation InsertGuard pragmaFile) = pragmaFile.
Proof.
  split.
  - apply (proj2 (proj2 (proj2 (failure_leaves_document cppFile))) Toggle).
    left. reflexivity.
  - apply (proj2 (proj2 (proj2 (failure_leaves_document pragmaFile))) InsertGuard).
    right. reflexivity.
Defined.

Lemma hasPragmaOnce_spec_witness :
  hasPragmaOnce commentedPragmaFile = true
  /\ hasPragmaOnce plainFile = false.
Proof.
  split.
  - apply (proj1 (hasPragmaOnce_spec commentedPragmaFile)).
    exists 1. split; [vm_compute; lia|]. split; [reflexivity|].
    intros j Hj. assert (j = 0) by lia. subst j. right. left. reflexivity.
  - apply (proj2 (hasPragmaOnce_spec plainFile) 0).
    + vm_compute. lia.
    + reflexivity.
    + intros j Hj. assert (j = 0) by lia. subst j. reflexivity.
Defined.

Lemma extractGuard_header_pair_witness :
  (ifndefLine (mkGuard (str "FOO_H") 0 1 3) < Nat.min 60 (lineCount guardedFile)
   /\ reIfndef (lineAt guardedFile 0) = Some (str "FOO_H")
   /\ (forall i, i < 0 -> reIfndef (lineAt guardedFile i) = None)
   /\ reDefine (str "FOO_H") (lineAt guardedFile 1) = true
   /\ 0 < 1 <= 0 + 5
   /\ 1 < Nat.min 60 (lineCount guardedFile))
  /\ extractGuardMacro loneIfndefFile = None.
Proof.
  split.
  - apply (proj1 (extractGuard_header_pair guardedFile)
                 (mkGuard (str "FOO_H") 0 1 3)).
    reflexivity.
  - apply (proj2 (extractGuard_header_pair loneIfndefFile) 0 (str "FOO_H")).
    + vm_compute. lia.
    + reflexivity.
    + intros k Hk. lia.
    + intros j Hj Hb.
      assert (Hc : j = 1 \/ j = 2 \/ j = 3 \/ j = 4 \/ j = 5) by lia.
      destruct Hc as [-> | [-> | [-> | [-> | ->]]]]; reflexivity.
Defined.

Lemma extractGuard_endif_witness :
  extractGuardMacro guardedFile = Some (mkGuard (str "FOO_H") 0 1 3)
  /\ extractGuardMacro bareEndifFile = Some (mkGuard (str "FOO_H") 0 1 3).
Proof.
  split.
  - apply (proj1 (extractGuard_endif guardedFile (str "FOO_H") 0 1 eq_refl) 3).
    + vm_compute. lia.
    + reflexivity.
    + intros k' Hk'. vm_compute in Hk'. lia.
  - apply (proj1 (proj2 (extractGuard_endif bareEndifFile (str "FOO_H") 0 1
                                            eq_refl))).
    + intros k Hk. vm_compute in Hk.
      assert (Hc : k = 0 \/ k = 1 \/ k = 2 \/ k = 3) by lia.
      destruct Hc as [-> | [-> | [-> | ->]]]; reflexivity.
    + vm_compute. lia.
    + reflexivity.
    + intros k' Hk'. vm_compute in Hk'. lia.
Defined.

(** ** Where the guard ends *)

(** C10.  The search for [#endif] from the bottom does not look at where the
    header pair is: there is a document whose guard ends above its [#ifndef],
    and one whose guard ends between its [#ifndef] and its [#define], so that
    the two deletions of [UsePragmaOnce] overlap. *)
Theorem endif_before_ifndef :
  (exists d g, extractGuardMacro d = Some g /\ endifLine g < ifndefLine g)
  /\ (exists d g, extractGuardMacro d = Some g
                  /\ ifndefLine g < endifLine g < defineLine g
                  /\ overlapping
                       (sortByRange (fun r => r)
                          (map range (removeGuardEdits d g))) = true).
Proof.
  split.
  - exists endifFirstFile, (mkGuard (str "A") 1 2 0).
    split; [reflexivity | simpl; lia].
  - exists endifInsideFile, (mkGuard (str "A") 0 2 1).
    split; [reflexivity|]. split; [simpl; lia | reflexivity].
Qed.

(** ** The macro namer *)

Lemma sanitize_macroChars rel : forallb isMacroChar (sanitize rel) = true.
Proof.
  unfold sanitize. induction (toUpperCase rel) as [|c s IH]; simpl;
    [reflexivity|].
  rewrite underscoreUnless_macroChar. exact IH.
Qed.

Lemma computeMacro_macroChars d : forallb isMacroChar (computeMacro d) = true.
Proof.
  unfold computeMacro.
  destruct (reHeaderSuffix _); [apply sanitize_macroChars|].
  rewrite forallb_app, sanitize_macroChars. reflexivity.
Qed.

Lemma endsWith_app w s : endsWith w (s ++ w) = true.
Proof. unfold endsWith. rewrite rev_app_distr. apply startsWith_app. Qed.

Lemma reHeaderSuffix_nonempty m : reHeaderSuffix m = true -> m <> [].
Proof. intros H ->. discriminate. Qed.

Lemma computeMacro_suffix d : reHeaderSuffix (computeMacro d) = true.
Proof.
  unfold computeMacro.
  destruct (reHeaderSuffix (sanitize _)) eqn:E; [exact E|].
  unfold reHeaderSuffix. rewrite endsWith_app. reflexivity.
Qed.

Lemma computeMacro_nonempty d : computeMacro d <> [].
Proof. apply reHeaderSuffix_nonempty, computeMacro_suffix. Qed.












(** On a file name that begins with a digit the name begins with that digit,
    and what [insertGuard] writes after [#ifndef] is no identifier. *)
Example computeMacro_leading_digit :
  computeMacro digitFile = str "1FILE_H"
  /\ isIdentifier (computeMacro digitFile) = false
  /\ snd (insertGuard digitFile)
     = setLines digitFile
         [str "#ifndef 1FILE_H"; str "#define 1FILE_H"; []; str "int x;";
          str "#endif // 1FILE_H"; []].
Proof. repeat split. Qed.

(** ** Toggle on a pragma below a comment *)

Lemma pragmaDeletions_nonempty d : forall n i0,
  pragmaDeletions d i0 n <> [] <->
  exists i, i0 <= i < i0 + n
    /\ rePragmaOnce (lineAt d i) = true
    /\ forall j, i0 <= j < i -> trim (lineAt d j) = [].
Proof.
  induction n as [|n IH]; intros i0; simpl.
  - split; [congruence | intros (i & Hi & _); lia].
  - destruct (rePragmaOnce (lineAt d i0)) eqn:Ep.
    + split; [|discriminate]. intros _. exists i0.
      repeat split; [lia | lia | exact Ep | intros j Hj; lia].
    + destruct (eqs (trim (lineAt d i0)) []) eqn:Et; simpl.
      * apply eqs_eq in Et. rewrite IH. split.
        -- intros (i & Hi & Hp & Hall). exists i.
           repeat split; [lia | lia | exact Hp |].
           intros j Hj. destruct (Nat.eq_dec j i0) as [->|]; [exact Et|].
           apply Hall. lia.
        -- intros (i & Hi & Hp & Hall).
           assert (i <> i0) by (intros ->; congruence).
           exists i. repeat split; [lia | lia | exact Hp |].
           intros j Hj. apply Hall. lia.
      * split; [congruence|]. intros (i & Hi & Hp & Hall).
        assert (i <> i0) by (intros ->; congruence).
        assert (Ht : trim (lineAt d i0) = []) by (apply Hall; lia).
        apply eqs_eq in Ht. congruence.
Qed.

(** C8 does not hold of the code.  The loop of [toggleGuardOrPragma] deletes
    the pragma exactly when every line above it is blank, while
    [hasPragmaOnce] also passes over comment lines.  On a header whose
    [#pragma once] stands below a comment line [hasPragmaOnce] answers true,
    the loop stops at the comment and deletes nothing, and the guard is put
    around a document that still has the pragma.  Without the comment the
    pragma and the empty line below it are emptied. *)
Theorem toggle_keeps_pragma_below_comment :
  (forall d,
     pragmaDeletions d 0 (Nat.min 50 (lineCount d)) <> [] <->
     exists i, i < Nat.min 50 (lineCount d)
       /\ rePragmaOnce (lineAt d i) = true
       /\ forall j, j < i -> trim (lineAt d j) = [])
  /\ isHeader commentedPragmaFile = true
  /\ hasPragmaOnce commentedPragmaFile = true
  /\ pragmaDeletions commentedPragmaFile 0
       (Nat.min 50 (lineCount commentedPragmaFile)) = []
  /\ toggleGuardOrPragma commentedPragmaFile
     = (Edited,
        mkDocument (str "a.h") None
          [str "#ifndef A_H"; str "#define A_H"; []; str "// licence";
           str "#pragma once"; str "int x;"; str "#endif // A_H"; []])
  /\ toggleGuardOrPragma pragmaFile
     = (Edited,
        mkDocument (str "include/a.h") None
          [str "#ifndef A_H"; str "#define A_H"; []; []; []; str "int x;";
           str "#endif // A_H"; []]).
Proof.
  split; [|repeat split].
  intros d. rewrite pragmaDeletions_nonempty. split.
  - intros (i & Hi & Hp & Hall). exists i.
    repeat split; [lia | exact Hp |]. intros j Hj. apply Hall. lia.
  - intros (i & Hi & Hp & Hall). exists i.
    repeat split; [lia | lia | exact Hp |]. intros j Hj. apply Hall. lia.
Qed.

(** ** The scenarios of the specification *)

Example scenario_A :
  computeMacro emptyFile = str "MATH_H"
  /\ insertGuard emptyFile
     = (Edited,
        mkDocument (str "src/utils/math.h") None
          [str "#ifndef MATH_H"; str "#define MATH_H"; []; [];
           str "#endif // MATH_H"; []]).
Proof. split; reflexivity. Qed.

Example scenario_B :
  hasPragmaOnce pragmaFile = true /\ extractGuardMacro pragmaFile = None.
Proof. split; reflexivity. Qed.

Example scenario_C :
  extractGuardMacro guardedFile = Some (mkGuard (str "FOO_H") 0 1 3).
Proof. reflexivity. Qed.

Example scenario_D :
  extractGuardMacro bareEndifFile = Some (mkGuard (str "FOO_H") 0 1 3).
Proof. reflexivity. Qed.

Example scenario_E :
  insertGuard cppFile = (NotAHeader, cppFile)
  /\ usePragmaOnce cppFile = (NotAHeader, cppFile)
  /\ toggleGuardOrPragma cppFile = (NotAHeader, cppFile).
Proof. repeat split. Qed.

(** The list of extensions, upper or lower case; a file called [.h] has no
    extension. *)
Example isHeader_extensions :
  map (fun name => isHeader (mkDocument name None [[]]))
      [str "a.h"; str "dir/Foo.HPP"; str "a.hh"; str "b.Hxx"; str "a.cpp";
       str "a.h.txt"; str ".h"; str "h"]
  = [true; true; true; true; false; false; false; false].
Proof. reflexivity. Qed.

(** The name of a file inside a workspace folder. *)
Example computeMacro_in_workspace :
  computeMacro (mkDocument (str "/ws/src/utils/math.h")
                           (Some (str "src/utils/math.h")) [[]])
  = str "SRC_UTILS_MATH_H".
Proof. reflexivity. Qed.

(** ** Lines of inserted text *)

Lemma computeMacro_valid d : validMacro (computeMacro d).
Proof. split; [apply computeMacro_nonempty | apply computeMacro_macroChars]. Qed.

Lemma macroChars_noBreak m : forallb isMacroChar m = true -> noBreak m = true.
Proof.
  unfold noBreak. induction m as [|c m IH]; simpl; [reflexivity|].
  intros H. apply andb_true_iff in H. destruct H as [Hc Hm].
  rewrite (macroChar_not_nl c Hc), (macroChar_not_cr c Hc). simpl.
  apply IH, Hm.
Qed.

Lemma noBreak_app a b : noBreak (a ++ b) = noBreak a && noBreak b.
Proof. apply forallb_app. Qed.

Lemma splitLines_line s r :
  noBreak s = true -> splitLines (s ++ nl :: r) = s :: splitLines r.
Proof.
  induction s as [|c s IH]; intros H.
  - reflexivity.
  - simpl in H. apply andb_true_iff in H. destruct H as [Hc Hs].
    apply negb_true_iff, orb_false_iff in Hc. destruct Hc as [Hn Hr].
    change ((c :: s) ++ nl :: r) with (c :: (s ++ nl :: r)).
    cbn [splitLines]. rewrite Hn, Hr, (IH Hs). reflexivity.
Qed.

Lemma noBreak_ifndefText m : validMacro m -> noBreak (ifndefText m) = true.
Proof.
  intros [_ H]. unfold ifndefText. rewrite noBreak_app.
  rewrite (macroChars_noBreak m H). reflexivity.
Qed.

Lemma noBreak_defineText m : validMacro m -> noBreak (defineText m) = true.
Proof.
  intros [_ H]. unfold defineText. rewrite noBreak_app.
  rewrite (macroChars_noBreak m H). reflexivity.
Qed.

Lemma noBreak_endifText m : validMacro m -> noBreak (endifText m) = true.
Proof.
  intros [_ H]. unfold endifText. rewrite noBreak_app.
  rewrite (macroChars_noBreak m H). reflexivity.
Qed.

Lemma splitLines_guardHeader m :
  validMacro m ->
  splitLines (guardHeader m) = [ifndefText m; defineText m; []; []].
Proof.
  intros Hm. unfold guardHeader.
  replace (str "#ifndef " ++ m ++ [nl] ++ str "#define " ++ m ++ [nl; nl])
    with (ifndefText m ++ nl :: (defineText m ++ nl :: [nl])).
  - rewrite (splitLines_line _ _ (noBreak_ifndefText m Hm)).
    rewrite (splitLines_line _ _ (noBreak_defineText m Hm)).
    reflexivity.
  - unfold ifndefText, defineText. rewrite <- !app_assoc. reflexivity.
Qed.

Lemma splitLines_guardFooter m :
  validMacro m -> splitLines (guardFooter m) = [[]; endifText m; []].
Proof.
  intros Hm. unfold guardFooter.
  replace ([nl] ++ str "#endif // " ++ m ++ [nl])
    with (nl :: (endifText m ++ nl :: [])).
  - cbn [splitLines]. rewrite Ascii.eqb_refl.
    rewrite (splitLines_line _ _ (noBreak_endifText m Hm)). reflexivity.
  - unfold endifText. rewrite <- !app_assoc. reflexivity.
Qed.

Lemma glue_guardHeader m x :
  validMacro m ->
  glue [] (guardHeader m) x = [ifndefText m; defineText m; []; x].
Proof. intros Hm. unfold glue. rewrite (splitLines_guardHeader m Hm). reflexivity. Qed.

Lemma glue_guardFooter m x :
  validMacro m -> glue x (guardFooter m) [] = [x; endifText m; []].
Proof.
  intros Hm. unfold glue. rewrite (splitLines_guardFooter m Hm).
  simpl. rewrite app_nil_r. reflexivity.
Qed.

Lemma glue_pragmaText x : glue [] pragmaText x = [str "#pragma once"; []; x].
Proof. reflexivity. Qed.

Lemma glue_delete head tail : glue head [] tail = [head ++ tail].
Proof. unfold glue. simpl. rewrite app_nil_r. reflexivity. Qed.

(** ** The patterns on the lines the extension writes *)

Lemma last_forallb (p : ascii -> bool) m dflt :
  m <> [] -> forallb p m = true -> p (last m dflt) = true.
Proof.
  induction m as [|c m IH]; intros Hne H; [congruence|].
  simpl in H. apply andb_true_iff in H. destruct H as [Hc Hm].
  destruct m as [|c' m']; [exact Hc|].
  change (last (c :: c' :: m') dflt) with (last (c' :: m') dflt).
  apply IH; [discriminate | exact Hm].
Qed.

Lemma startsWith_refl m : startsWith m m = true.
Proof. rewrite <- (app_nil_r m) at 2. apply startsWith_app. Qed.

Lemma skipn_length_self {A} (m : list A) : skipn (length m) m = [].
Proof. rewrite <- (app_nil_r m) at 2. apply skipn_length_app. Qed.

Lemma dropWhile_space_macro m :
  forallb isMacroChar m = true -> dropWhile isSpace m = m.
Proof.
  destruct m as [|c m]; [reflexivity|]. simpl. intros H.
  apply andb_true_iff in H. destruct H as [Hc _].
  rewrite (macroChar_not_space c Hc). reflexivity.
Qed.

Lemma directive_hash kw r :
  match kw with k :: _ => isSpace k = false | [] => False end ->
  directive kw ("#" :: kw ++ r) = Some r.
Proof.
  intros Hk. unfold directive.
  rewrite (dropWhile_stop isSpace "#" (kw ++ r) eq_refl).
  rewrite Ascii.eqb_refl.
  destruct kw as [|k kw']; [contradiction|].
  change ((k :: kw') ++ r) with (k :: (kw' ++ r)).
  rewrite (dropWhile_stop isSpace k (kw' ++ r) Hk).
  change (k :: (kw' ++ r)) with ((k :: kw') ++ r).
  rewrite startsWith_app, skipn_length_app. reflexivity.
Qed.

Lemma spaces1_blank r : spaces1 (" " :: r) = Some (dropWhile isSpace r).
Proof. reflexivity. Qed.

Lemma reIfndef_ifndefText m : validMacro m -> reIfndef (ifndefText m) = Some m.
Proof.
  intros [Hne Hm]. unfold reIfndef.
  change (ifndefText m) with ("#" :: str "ifndef" ++ " " :: m).
  rewrite (directive_hash (str "ifndef") (" " :: m) eq_refl).
  rewrite spaces1_blank, (dropWhile_space_macro m Hm).
  pose proof (takeWhile_all isMacroChar m [] Hm I) as Ht.
  rewrite app_nil_r in Ht. rewrite Ht.
  destruct m; [congruence | reflexivity].
Qed.

Lemma wordBoundary_macro_end m dflt :
  validMacro m -> wordBoundary (Some (last m dflt)) None = true.
Proof.
  intros [Hne Hm]. unfold wordBoundary. simpl.
  rewrite (macroChar_wordChar _ (last_forallb isMacroChar m dflt Hne Hm)).
  reflexivity.
Qed.

Lemma reDefine_defineText m : validMacro m -> reDefine m (defineText m) = true.
Proof.
  intros Hv. pose proof Hv as [Hne Hm].
  unfold reDefine.
  change (defineText m) with ("#" :: str "define" ++ " " :: m).
  rewrite (directive_hash (str "define") (" " :: m) eq_refl).
  rewrite spaces1_blank, (dropWhile_space_macro m Hm).
  rewrite startsWith_refl, skipn_length_self.
  apply (wordBoundary_macro_end m " " Hv).
Qed.

Lemma wordOccurs_eq m prev r :
  wordOccurs m prev r
  = (startsWith m r
     && wordBoundary (Some prev) (hd_error r)
     && wordBoundary (Some (last m prev)) (hd_error (skipn (length m) r)))
    || match r with
       | [] => false
       | c :: r' => isDot c && wordOccurs m c r'
       end.
Proof. destruct r; reflexivity. Qed.

Lemma wordOccurs_here m prev :
  validMacro m -> isWordChar prev = false -> wordOccurs m prev m = true.
Proof.
  intros Hv Hprev. pose proof Hv as [Hne Hm].
  rewrite wordOccurs_eq. apply orb_true_iff. left.
  rewrite startsWith_refl, skipn_length_self.
  change (hd_error (@nil ascii)) with (@None ascii).
  rewrite (wordBoundary_macro_end m prev Hv).
  destruct m as [|c m']; [congruence|].
  unfold wordBoundary. simpl in *. rewrite Hprev.
  apply andb_true_iff in Hm. destruct Hm as [Hc _].
  rewrite (macroChar_wordChar c Hc). reflexivity.
Qed.

Lemma wordOccurs_skip m prev c r :
  isDot c = true -> wordOccurs m c r = true -> wordOccurs m prev (c :: r) = true.
Proof.
  intros Hc H. rewrite wordOccurs_eq. rewrite Hc, H. apply orb_true_r.
Qed.

Lemma reEndifMacro_endifText m :
  validMacro m -> reEndifMacro m (endifText m) = true.
Proof.
  intros Hv. unfold reEndifMacro.
  change (endifText m) with ("#" :: str "endif" ++ " " :: "/" :: "/" :: " " :: m).
  rewrite (directive_hash (str "endif") _ eq_refl).
  change (wordOccurs m "f" (" " :: "/" :: "/" :: " " :: m) = true).
  repeat (apply wordOccurs_skip; [reflexivity|]).
  apply wordOccurs_here; [exact Hv | reflexivity].
Qed.

Lemma rePragmaOnce_ifndefText m : rePragmaOnce (ifndefText m) = false.
Proof. reflexivity. Qed.

Lemma dropWhile_rev_stop p s c :
  p c = false -> dropWhile p (rev (s ++ [c])) = rev (s ++ [c]).
Proof. intros H. rewrite rev_app_distr. simpl. rewrite H. reflexivity. Qed.

Lemma trim_ifndefText m : validMacro m -> trim (ifndefText m) = ifndefText m.
Proof.
  intros [Hne Hm]. unfold trim, ifndefText.
  change (dropWhile isSpace (str "#ifndef " ++ m)) with (str "#ifndef " ++ m).
  destruct (exists_last Hne) as (m' & c & ->).
  rewrite app_assoc.
  rewrite dropWhile_rev_stop; [apply rev_involutive|].
  rewrite forallb_app in Hm. apply andb_true_iff in Hm.
  destruct Hm as [_ Hc]. simpl in Hc. rewrite andb_true_r in Hc.
  apply macroChar_not_space, Hc.
Qed.

Lemma isSubstantive_ifndefText m :
  validMacro m -> isSubstantive (ifndefText m) = true.
Proof.
  intros Hv. unfold isSubstantive. rewrite (trim_ifndefText m Hv). reflexivity.
Qed.

Lemma rePragmaOnce_nonempty t : rePragmaOnce t = true -> 0 < length t.
Proof. destruct t; [discriminate | simpl; lia]. Qed.

Lemma reEndif_nonempty t : reEndif t = true -> 0 < length t.
Proof. destruct t; [discriminate | simpl; lia]. Qed.

(** ** A document with the guard the extension writes *)

Lemma pragmaScan_first d n :
  0 < n -> rePragmaOnce (lineAt d 0) = true -> pragmaScan d 0 n = true.
Proof.
  intros Hn Hp. destruct n as [|n]; [lia|]. simpl. rewrite Hp. reflexivity.
Qed.

Lemma pragmaScan_stop d n :
  rePragmaOnce (lineAt d 0) = false -> isSubstantive (lineAt d 0) = true ->
  pragmaScan d 0 n = false.
Proof.
  intros Hp Hs. destruct n as [|n]; [reflexivity|]. simpl.
  rewrite Hp, Hs. reflexivity.
Qed.

Lemma pragma_first_line d rest :
  lines d = str "#pragma once" :: rest -> hasPragmaOnce d = true.
Proof.
  intros HL. unfold hasPragmaOnce. apply pragmaScan_first.
  - unfold lineCount. rewrite HL. simpl. lia.
  - unfold lineAt. rewrite HL. reflexivity.
Qed.

Lemma guarded_lines d m rest :
  validMacro m ->
  lines d = ifndefText m :: defineText m :: rest ->
  In (endifText m) rest ->
  hasPragmaOnce d = false
  /\ exists k, extractGuardMacro d = Some (mkGuard m 0 1 k)
               /\ 2 <= k < lineCount d
               /\ reEndif (lineAt d k) = true.
Proof.
  intros Hv HL Hin.
  assert (H0 : lineAt d 0 = ifndefText m) by (unfold lineAt; rewrite HL; reflexivity).
  assert (H1 : lineAt d 1 = defineText m) by (unfold lineAt; rewrite HL; reflexivity).
  assert (Hn : lineCount d = S (S (length rest))) by (unfold lineCount; rewrite HL; reflexivity).
  split.
  - unfold hasPragmaOnce. apply pragmaScan_stop; rewrite H0.
    + apply rePragmaOnce_ifndefText.
    + apply isSubstantive_ifndefText, Hv.
  - assert (Hpair : findHeaderPair d = Some (m, 0, Some 1)).
    { apply findHeaderPair_Some. repeat split.
      - lia.
      - rewrite H0. apply reIfndef_ifndefText, Hv.
      - intros k Hk. lia.
      - symmetry. apply findUp_Some. repeat split; try lia.
        rewrite H1. apply reDefine_defineText, Hv. }
    destruct (In_nth rest (endifText m) [] Hin) as (idx & Hidx & Hnth).
    assert (Hline : reEndifMacro m (lineAt d (S (S idx))) = true).
    { unfold lineAt. rewrite HL. simpl. rewrite Hnth.
      apply reEndifMacro_endifText, Hv. }
    destruct (findDown_exists (fun k => reEndifMacro m (lineAt d k))
                (lineCount d) (S (S idx))) as (k & Hk & Hle);
      [lia | exact Hline |].
    exists k. unfold extractGuardMacro, findEndif. rewrite Hpair, Hk.
    apply findDown_Some in Hk. destruct Hk as (Hlt & Hm & _).
    repeat split; try lia. apply (reEndifMacro_reEndif m), Hm.
Qed.

(** ** The transaction *)

#[local] Arguments Nat.ltb : simpl never.
#[local] Arguments Nat.leb : simpl never.
#[local] Arguments Nat.eqb : simpl never.

Ltac decide_nat_cmp :=
  repeat match goal with
  | |- context [Nat.ltb ?a ?b] =>
      first [ rewrite (proj2 (Nat.ltb_lt a b)) by lia
            | rewrite (proj2 (Nat.ltb_ge a b)) by lia ]
  | |- context [Nat.eqb ?a ?b] =>
      first [ rewrite (proj2 (Nat.eqb_eq a b)) by lia
            | rewrite (proj2 (Nat.eqb_neq a b)) by lia ]
  | |- context [Nat.leb ?a ?b] =>
      first [ rewrite (proj2 (Nat.leb_le a b)) by lia
            | rewrite (proj2 (Nat.leb_gt a b)) by lia ]
  end.

Ltac sort_step :=
  unfold insertAt, deleteRange;
  cbn [sortByRange fold_right map insertSorted overlapping range newText];
  unfold rangeLtb, isBefore;
  cbn [rstart rend line character];
  decide_nat_cmp;
  rewrite ?andb_false_r, ?andb_true_r, ?orb_false_r, ?orb_true_r;
  cbn [andb orb negb].

Ltac sort_ranges := repeat (progress sort_step).

Lemma validatePosition_inside L l c :
  l < length L -> c <= length (nth l L []) ->
  validatePosition L (mkPosition l c) = mkPosition l c.
Proof.
  intros Hl Hc. unfold validatePosition. cbn [line character].
  decide_nat_cmp. rewrite Nat.min_l by assumption. reflexivity.
Qed.

Lemma validatePosition_beyond L l c :
  length L <= l ->
  validatePosition L (mkPosition l c)
  = mkPosition (length L - 1) (length (nth (length L - 1) L [])).
Proof.
  intros Hl. unfold validatePosition. cbn [line character].
  decide_nat_cmp. reflexivity.
Qed.

Lemma newRange_ordered l1 c1 l2 c2 :
  l1 < l2 \/ (l1 = l2 /\ c1 <= c2) ->
  newRange l1 c1 l2 c2 = mkRange (mkPosition l1 c1) (mkPosition l2 c2).
Proof.
  intros H. unfold newRange, isBefore. cbn [line character].
  destruct H as [H | [H1 H2]]; decide_nat_cmp; reflexivity.
Qed.

Lemma spliceLines_front L t :
  spliceLines L (mkEdit (mkRange (mkPosition 0 0) (mkPosition 0 0)) t)
  = glue [] t (nth 0 L []) ++ skipn 1 L.
Proof. reflexivity. Qed.

Lemma firstn_last_line (L : list jsstring) :
  L <> [] -> firstn (length L - 1) L ++ [nth (length L - 1) L []] = L.
Proof.
  intros Hne. destruct (exists_last Hne) as (A & x & ->).
  rewrite length_app. simpl. replace (length A + 1 - 1) with (length A) by lia.
  rewrite firstn_app, firstn_all, Nat.sub_diag. simpl. rewrite app_nil_r.
  rewrite app_nth2 by lia. rewrite Nat.sub_diag. reflexivity.
Qed.

Lemma spliceLines_end L t :
  let e := mkPosition (length L - 1) (length (nth (length L - 1) L [])) in
  spliceLines L (mkEdit (mkRange e e) t)
  = firstn (length L - 1) L ++ glue (nth (length L - 1) L []) t [].
Proof.
  intros e. unfold spliceLines. cbn [range rstart rend line character newText e].
  rewrite firstn_all, skipn_all.
  rewrite (skipn_all2 (n := S (length L - 1))) by lia.
  rewrite app_nil_r. reflexivity.
Qed.

Lemma spliceLines_inLine L i c1 c2 :
  spliceLines L (mkEdit (mkRange (mkPosition i c1) (mkPosition i c2)) [])
  = firstn i L ++ [firstn c1 (nth i L []) ++ skipn c2 (nth i L [])]
    ++ skipn (S i) L.
Proof.
  unfold spliceLines. cbn [range rstart rend line character newText].
  rewrite glue_delete. reflexivity.
Qed.

Lemma spliceLines_inLine_length L i c1 c2 :
  i < length L ->
  length (spliceLines L (mkEdit (mkRange (mkPosition i c1) (mkPosition i c2)) []))
  = length L.
Proof.
  intros Hi. rewrite spliceLines_inLine.
  rewrite !length_app, length_firstn, length_skipn. simpl. lia.
Qed.

(** An edit inside the upper part of a document leaves the lower part. *)
Lemma spliceLines_app A B e :
  line (rstart (range e)) <= line (rend (range e)) ->
  line (rend (range e)) < length A ->
  spliceLines (A ++ B) e = spliceLines A e ++ B.
Proof.
  intros Hs Hf. unfold spliceLines.
  rewrite firstn_app. replace (line (rstart (range e)) - length A) with 0 by lia.
  rewrite firstn_O, app_nil_r.
  rewrite !app_nth1 by lia.
  rewrite skipn_app.
  replace (S (line (rend (range e))) - length A) with 0 by lia.
  rewrite skipn_O, <- !app_assoc. reflexivity.
Qed.

Ltac validate_positions :=
  unfold insertAt, deleteRange;
  cbn [map]; unfold validateEdit;
  cbn [range newText rstart rend];
  repeat match goal with
  | |- context [validatePosition ?L (mkPosition ?l ?c)] =>
      first [ rewrite (validatePosition_inside L l c) by (cbn [length]; lia)
            | rewrite (validatePosition_beyond L l c) by (cbn [length]; lia) ]
  end.

Lemma insertGuard_applied L m :
  validMacro m ->
  applyEdits L [insertAt (mkPosition 0 0) (guardHeader m);
                insertAt (mkPosition (length L) 0) (guardFooter m)]
  = Some ([ifndefText m; defineText m; []]
          ++ (if length L =? 0 then [[]] else L)
          ++ [endifText m; []]).
Proof.
  intros Hv. unfold applyEdits. destruct L as [|x L].
  - change (map (validateEdit [])
              [insertAt (mkPosition 0 0) (guardHeader m);
               insertAt (mkPosition (length (@nil jsstring)) 0) (guardFooter m)])
      with [insertAt (mkPosition 0 0) (guardHeader m);
            insertAt (mkPosition 0 0) (guardFooter m)].
    cbn [length]. sort_ranges.
    rewrite !spliceLines_front.
    rewrite (glue_guardFooter _ _ Hv), (glue_guardHeader _ _ Hv).
    reflexivity.
  - set (L' := x :: L).
    assert (Hlen : 0 < length L') by (simpl; lia).
    assert (Hne : L' <> []) by discriminate.
    validate_positions. sort_ranges.
    rewrite spliceLines_end, spliceLines_front.
    rewrite (glue_guardFooter _ _ Hv), (glue_guardHeader _ _ Hv).
    f_equal. pose proof (firstn_last_line L' Hne) as HL.
    remember (nth (length L' - 1) L' []) as y.
    remember (firstn (length L' - 1) L') as A.
    rewrite <- HL. destruct A; simpl; rewrite <- ?app_assoc; reflexivity.
Qed.

(** ** InsertGuard on an unprotected header *)

Lemma insertGuard_unprotected d :
  isHeader d = true -> hasPragmaOnce d = false -> extractGuardMacro d = None ->
  insertGuard d
  = (Edited,
     setLines d ([ifndefText (computeMacro d); defineText (computeMacro d); []]
                 ++ (if lineCount d =? 0 then [[]] else lines d)
                 ++ [endifText (computeMacro d); []])).
Proof.
  intros Hh Hp Hg. unfold insertGuard. rewrite Hh, Hp, Hg. simpl.
  unfold edit, insertGuardEdits, lineCount.
  rewrite (insertGuard_applied (lines d) _ (computeMacro_valid d)).
  reflexivity.
Qed.

(** C1.  On a header with neither a pragma nor a guard, [InsertGuard] commits
    its edit, and [extractGuardMacro] on the new document finds a guard whose
    macro is [computeMacro] of the document. *)
Theorem insertGuard_then_extract (d : TextDocument) :
  isHeader d = true ->
  hasPragmaOnce d = false ->
  extractGuardMacro d = None ->
  exists d' g,
    insertGuard d = (Edited, d')
    /\ fileName d' = fileName d
    /\ extractGuardMacro d' = Some g
    /\ macro g = computeMacro d.
Proof.
  intros Hh Hp Hg.
  rewrite (insertGuard_unprotected d Hh Hp Hg).
  match goal with |- context [setLines d ?L] => set (d' := setLines d L) end.
  destruct (guarded_lines d' (computeMacro d)
              ([] :: (if lineCount d =? 0 then [[]] else lines d)
                  ++ [endifText (computeMacro d); []]))
    as (_ & k & Hk & _).
  - apply computeMacro_valid.
  - reflexivity.
  - right. apply in_or_app. right. left. reflexivity.
  - exists d', (mkGuard (computeMacro d) 0 1 k).
    repeat split. exact Hk.
Qed.

Lemma insertGuard_then_extract_witness :
  exists d' g,
    insertGuard plainFile = (Edited, d')
    /\ fileName d' = fileName plainFile
    /\ extractGuardMacro d' = Some g
    /\ macro g = computeMacro plainFile.
Proof.
  apply (insertGuard_then_extract plainFile); reflexivity.
Defined.

(** ** What a guard is made of *)

Lemma directive_endif_only t r :
  directive (str "endif") t = Some r ->
  directive (str "ifndef") t = None /\ directive (str "define") t = None.
Proof.
  unfold directive. destruct (dropWhile isSpace t) as [|c s]; [discriminate|].
  destruct (Ascii.eqb c "#"); [|discriminate].
  destruct (dropWhile isSpace s) as [|c' s']; [discriminate|].
  destruct (Ascii.eqb "e" c') eqn:E.
  - apply Ascii.eqb_eq in E. subst c'. intros _. split; reflexivity.
  - cbn [startsWith str list_ascii_of_string]. rewrite E. discriminate.
Qed.

Lemma reEndif_not_ifndef t : reEndif t = true -> reIfndef t = None.
Proof.
  unfold reEndif, reIfndef.
  destruct (directive (str "endif") t) as [r|] eqn:E; [|discriminate].
  destruct (directive_endif_only t r E) as [-> _]. reflexivity.
Qed.

Lemma reEndif_not_define m t : reEndif t = true -> reDefine m t = false.
Proof.
  unfold reEndif, reDefine.
  destruct (directive (str "endif") t) as [r|] eqn:E; [|discriminate].
  destruct (directive_endif_only t r E) as [_ ->]. reflexivity.
Qed.

Lemma findEndif_Some d m k :
  findEndif d m = Some k -> k < lineCount d /\ reEndif (lineAt d k) = true.
Proof.
  unfold findEndif.
  destruct (findDown (fun k => reEndifMacro m (lineAt d k)) (lineCount d))
    as [k'|] eqn:E.
  - intros H. inversion H. subst k'. apply findDown_Some in E.
    destruct E as (Hk & Hm & _). split; [exact Hk|].
    apply (reEndifMacro_reEndif m), Hm.
  - intros H. apply findDown_Some in H. destruct H as (Hk & Hm & _). auto.
Qed.

Lemma extractGuardMacro_Some d g :
  extractGuardMacro d = Some g ->
  ifndefLine g < Nat.min 60 (lineCount d)
  /\ reIfndef (lineAt d (ifndefLine g)) = Some (macro g)
  /\ (forall i, i < ifndefLine g -> reIfndef (lineAt d i) = None)
  /\ reDefine (macro g) (lineAt d (defineLine g)) = true
  /\ ifndefLine g < defineLine g <= ifndefLine g + 5
  /\ defineLine g < Nat.min 60 (lineCount d)
  /\ endifLine g < lineCount d
  /\ reEndif (lineAt d (endifLine g)) = true.
Proof.
  intros Hg. unfold extractGuardMacro in Hg.
  destruct (findHeaderPair d) as [[[m i] [j|]]|] eqn:E; try discriminate.
  destruct (findEndif d m) as [k|] eqn:Ek; [|discriminate].
  inversion Hg. subst g. simpl.
  apply findHeaderPair_Some in E. destruct E as (Hi & Hm & Hno & Hj).
  symmetry in Hj. apply findUp_Some in Hj. destruct Hj as (Hr & Hp & _).
  apply findEndif_Some in Ek. destruct Ek as [Hk He].
  repeat split; auto; lia.
Qed.

(** The [#endif] line is neither the [#ifndef] line nor the [#define] line. *)
Lemma guard_layout d g :
  extractGuardMacro d = Some g ->
  ifndefLine g < defineLine g < lineCount d
  /\ endifLine g < lineCount d
  /\ 0 < length (lineAt d (endifLine g))
  /\ (endifLine g < ifndefLine g
      \/ ifndefLine g < endifLine g < defineLine g
      \/ defineLine g < endifLine g).
Proof.
  intros Hg. apply extractGuardMacro_Some in Hg.
  destruct Hg as (Hi & Hm & _ & Hd & Hij & Hj & Hk & He).
  assert (endifLine g <> ifndefLine g).
  { intros E. rewrite E in He. apply reEndif_not_ifndef in He. congruence. }
  assert (endifLine g <> defineLine g).
  { intros E. rewrite E in He.
    apply (reEndif_not_define (macro g)) in He. congruence. }
  repeat split; try lia. apply reEndif_nonempty, He.
Qed.

(** ** Removing a guard *)

Lemma clearLine_length k L : k < length L -> length (clearLine k L) = length L.
Proof.
  intros Hk. unfold clearLine.
  rewrite !length_app, length_firstn, length_skipn. simpl. lia.
Qed.

Lemma clearLine_app k A B :
  k < length A -> clearLine k (A ++ B) = clearLine k A ++ B.
Proof.
  intros Hk. unfold clearLine.
  rewrite firstn_app, skipn_app.
  replace (k - length A) with 0 by lia.
  replace (S k - length A) with 0 by lia.
  rewrite firstn_O, skipn_O, app_nil_r, <- !app_assoc. reflexivity.
Qed.

Lemma firstn_clearLine i k L :
  k < i -> i <= length L -> firstn i (clearLine k L) = clearLine k (firstn i L).
Proof.
  intros Hk Hi.
  assert (Hlen : length (firstn i L) = i) by (rewrite length_firstn; lia).
  rewrite <- (firstn_skipn i L) at 1.
  rewrite clearLine_app by lia.
  rewrite firstn_app, clearLine_length by lia.
  rewrite Hlen, Nat.sub_diag, firstn_O, app_nil_r.
  apply firstn_all2. rewrite clearLine_length; lia.
Qed.

Lemma skipn_clearLine i k L :
  k < i -> i <= length L -> skipn i (clearLine k L) = skipn i L.
Proof.
  intros Hk Hi.
  assert (Hlen : length (firstn i L) = i) by (rewrite length_firstn; lia).
  rewrite <- (firstn_skipn i L) at 1.
  rewrite clearLine_app by lia.
  rewrite skipn_app, clearLine_length by lia.
  rewrite Hlen, Nat.sub_diag, skipn_O.
  rewrite skipn_all2 by (rewrite clearLine_length; lia).
  reflexivity.
Qed.

Lemma spliceLines_clearLine X k c :
  length (nth k X []) <= c ->
  spliceLines X (mkEdit (mkRange (mkPosition k 0) (mkPosition k c)) [])
  = clearLine k X.
Proof.
  intros Hc. rewrite spliceLines_inLine.
  rewrite firstn_O, skipn_all2 by exact Hc. reflexivity.
Qed.

Lemma skipn_nth_cons (X : list jsstring) j :
  j < length X -> nth j X [] :: skipn (S j) X = skipn j X.
Proof.
  revert j. induction X as [|x X IH]; intros j Hj; simpl in Hj; [lia|].
  destruct j as [|j]; [reflexivity|].
  change (nth j X [] :: skipn (S j) X = skipn j X). apply IH. lia.
Qed.

Lemma spliceLines_deleteLines X i j :
  j < length X ->
  spliceLines X (mkEdit (mkRange (mkPosition i 0) (mkPosition j 0)) [])
  = firstn i X ++ skipn j X.
Proof.
  intros Hj. unfold spliceLines. cbn [range rstart rend line character newText].
  rewrite glue_delete, firstn_O, skipn_O.
  change ([[] ++ nth j X []] ++ skipn (S j) X)
    with (nth j X [] :: skipn (S j) X).
  rewrite (skipn_nth_cons X j Hj). reflexivity.
Qed.

Lemma spliceLines_deleteToEnd X i :
  spliceLines X
    (mkEdit (mkRange (mkPosition i 0)
                     (mkPosition (length X - 1)
                                 (length (nth (length X - 1) X []))))
            [])
  = firstn i X ++ [[]].
Proof.
  unfold spliceLines. cbn [range rstart rend line character newText].
  rewrite glue_delete, firstn_O, skipn_all.
  rewrite (skipn_all2 (n := S (length X - 1))) by lia.
  reflexivity.
Qed.

Lemma spliceLines_pragma Y :
  Y <> [] ->
  spliceLines Y (mkEdit (mkRange (mkPosition 0 0) (mkPosition 0 0)) pragmaText)
  = str "#pragma once" :: [] :: Y.
Proof.
  intros Hne. rewrite spliceLines_front, glue_pragmaText.
  destruct Y; [congruence | reflexivity].
Qed.

Lemma nonempty_length {A} (l : list A) : 0 < length l -> l <> [].
Proof. destruct l; simpl; [lia | discriminate]. Qed.

Lemma removeGuard_applied L i j k :
  i < j < length L -> k < length L -> 0 < length (nth k L []) ->
  k < i \/ j < k ->
  applyEdits L
    [insertAt (mkPosition 0 0) pragmaText;
     deleteRange (newRange i 0 (j + 1) 0);
     deleteRange (newRange k 0 k (length (nth k L [])))]
  = Some (str "#pragma once" :: [] ::
          firstn i (clearLine k L)
          ++ (if j + 1 <? length L then skipn (j + 1) (clearLine k L)
              else [[]])).
Proof.
  intros Hij Hk Hlen Hcase.
  rewrite !newRange_ordered by lia.
  unfold applyEdits. destruct Hcase as [Hki | Hjk].
  - destruct (Nat.eq_dec (j + 1) (length L)) as [Hend | Hmid].
    + validate_positions. sort_ranges.
      rewrite spliceLines_deleteToEnd.
      rewrite spliceLines_clearLine
        by (rewrite app_nth1 by (rewrite length_firstn; lia);
            rewrite nth_firstn; decide_nat_cmp; lia).
      rewrite spliceLines_pragma
        by (apply nonempty_length; rewrite clearLine_length;
            rewrite length_app, length_firstn; simpl; lia).
      rewrite clearLine_app by (rewrite length_firstn; lia).
      rewrite <- firstn_clearLine by lia. reflexivity.
    + validate_positions. sort_ranges.
      rewrite spliceLines_deleteLines by lia.
      rewrite spliceLines_clearLine
        by (rewrite app_nth1 by (rewrite length_firstn; lia);
            rewrite nth_firstn; decide_nat_cmp; lia).
      rewrite spliceLines_pragma
        by (apply nonempty_length; rewrite clearLine_length;
            rewrite length_app, length_firstn, length_skipn; lia).
      rewrite clearLine_app by (rewrite length_firstn; lia).
      rewrite <- firstn_clearLine by lia.
      rewrite (skipn_clearLine (j + 1) k L) by lia. reflexivity.
  - validate_positions. sort_ranges.
    rewrite spliceLines_clearLine by lia.
    rewrite spliceLines_deleteLines by (rewrite clearLine_length; lia).
    rewrite spliceLines_pragma
      by (apply nonempty_length;
          rewrite length_app, length_firstn, length_skipn, clearLine_length;
          lia).
    reflexivity.
Qed.

Lemma removeGuard_rejected L i j k :
  i < k < j -> j < length L ->
  applyEdits L
    [insertAt (mkPosition 0 0) pragmaText;
     deleteRange (newRange i 0 (j + 1) 0);
     deleteRange (newRange k 0 k (length (nth k L [])))]
  = None.
Proof.
  intros H Hj. rewrite !newRange_ordered by lia.
  unfold applyEdits. cbv zeta.
  destruct (Nat.eq_dec (j + 1) (length L)) as [Hend | Hmid];
    validate_positions; sort_ranges; reflexivity.
Qed.

(** ** Replacing a pragma by a guard *)

Lemma spliceLines_footer L m :
  validMacro m -> L <> [] ->
  spliceLines L
    (mkEdit (mkRange (mkPosition (length L - 1)
                                 (length (nth (length L - 1) L [])))
                     (mkPosition (length L - 1)
                                 (length (nth (length L - 1) L []))))
            (guardFooter m))
  = L ++ [endifText m; []].
Proof.
  intros Hv Hne. rewrite spliceLines_end, (glue_guardFooter _ _ Hv).
  pose proof (firstn_last_line L Hne) as HL.
  remember (nth (length L - 1) L []) as y.
  remember (firstn (length L - 1) L) as A.
  rewrite <- HL, <- app_assoc. reflexivity.
Qed.

Lemma spliceLines_header X B m :
  validMacro m -> X <> [] ->
  exists rest,
    spliceLines (X ++ B)
      (mkEdit (mkRange (mkPosition 0 0) (mkPosition 0 0)) (guardHeader m))
    = ifndefText m :: defineText m :: rest ++ B.
Proof.
  intros Hv Hne. rewrite spliceLines_front, (glue_guardHeader _ _ Hv).
  destruct X as [|x X]; [congruence|].
  exists ([] :: x :: X). reflexivity.
Qed.

Lemma pragmaDeletions_cases d : forall n i0,
  pragmaDeletions d i0 n = []
  \/ exists i,
       i0 <= i < i0 + n
       /\ rePragmaOnce (lineAt d i) = true
       /\ (pragmaDeletions d i0 n
           = [deleteRange (newRange i 0 i (length (lineAt d i)))]
           \/ i + 1 < lineCount d
              /\ pragmaDeletions d i0 n
                 = [deleteRange (newRange i 0 i (length (lineAt d i)));
                    deleteRange (newRange (i + 1) 0 (i + 1)
                                          (length (lineAt d (i + 1))))]).
Proof.
  induction n as [|n IH]; intros i0; simpl; [left; reflexivity|].
  destruct (rePragmaOnce (lineAt d i0)) eqn:Ep.
  - right. exists i0. split; [lia|]. split; [exact Ep|].
    destruct (i0 + 1 <? lineCount d) eqn:El; simpl; [|left; reflexivity].
    destruct (eqs (trim (lineAt d (i0 + 1))) []); [|left; reflexivity].
    right. apply Nat.ltb_lt in El. split; [exact El | reflexivity].
  - destruct (negb (eqs (trim (lineAt d i0)) [])); [left; reflexivity|].
    destruct (IH (S i0)) as [H | (i & Hi & Hp & H)]; [left; exact H|].
    right. exists i. split; [lia|]. split; [exact Hp | exact H].
Qed.

Lemma replacePragma_delete1 L i m :
  validMacro m -> i < length L -> 0 < length (nth i L []) ->
  exists rest,
    applyEdits L
      ([deleteRange (newRange i 0 i (length (nth i L [])))]
       ++ [insertAt (mkPosition 0 0) (guardHeader m);
           insertAt (mkPosition (length L) 0) (guardFooter m)])
    = Some (ifndefText m :: defineText m :: rest ++ [endifText m; []]).
Proof.
  intros Hv Hi Hlen.
  assert (Hne : L <> []) by (apply nonempty_length; lia).
  assert (Hlast : i = length L - 1 ->
                  length (nth i L []) = length (nth (length L - 1) L [])).
  { intros ->. reflexivity. }
  rewrite !newRange_ordered by lia.
  unfold applyEdits. cbn [app]. validate_positions.
  assert (Hgoal : forall X, length X = length L ->
            exists rest,
              spliceLines (X ++ [endifText m; []])
                (mkEdit (mkRange (mkPosition 0 0) (mkPosition 0 0))
                        (guardHeader m))
              = ifndefText m :: defineText m :: rest ++ [endifText m; []]).
  { intros X HX. apply spliceLines_header; [exact Hv|].
    apply nonempty_length. lia. }
  destruct (Nat.eq_dec i (length L - 1)) as [E0|E0];
    [specialize (Hlast E0)|clear Hlast];
    destruct i as [|i];
    sort_ranges;
    rewrite (spliceLines_footer L m Hv Hne);
    rewrite spliceLines_app by (cbn [range rstart rend line]; lia);
    match goal with
    | |- context [spliceLines (spliceLines L ?e ++ _) _] =>
        destruct (Hgoal (spliceLines L e)) as (rest & Hrest);
        [ apply spliceLines_inLine_length; assumption
        | exists rest; rewrite Hrest; reflexivity ]
    end.
Qed.

Lemma replacePragma_delete2 L i m :
  validMacro m -> i + 1 < length L -> 0 < length (nth i L []) ->
  exists rest,
    applyEdits L
      ([deleteRange (newRange i 0 i (length (nth i L [])));
        deleteRange (newRange (i + 1) 0 (i + 1) (length (nth (i + 1) L [])))]
       ++ [insertAt (mkPosition 0 0) (guardHeader m);
           insertAt (mkPosition (length L) 0) (guardFooter m)])
    = Some (ifndefText m :: defineText m :: rest ++ [endifText m; []]).
Proof.
  intros Hv Hi Hlen.
  assert (Hne : L <> []) by (apply nonempty_length; lia).
  assert (Hlast : i + 1 = length L - 1 ->
                  length (nth (i + 1) L [])
                  = length (nth (length L - 1) L [])).
  { intros ->. reflexivity. }
  rewrite !newRange_ordered by lia.
  unfold applyEdits. cbn [app]. validate_positions.
  assert (Hgoal : forall X, length X = length L ->
            exists rest,
              spliceLines (X ++ [endifText m; []])
                (mkEdit (mkRange (mkPosition 0 0) (mkPosition 0 0))
                        (guardHeader m))
              = ifndefText m :: defineText m :: rest ++ [endifText m; []]).
  { intros X HX. apply spliceLines_header; [exact Hv|].
    apply nonempty_length. lia. }
  destruct (Nat.eq_dec (i + 1) (length L - 1)) as [E0|E0];
    [specialize (Hlast E0)|clear Hlast];
    destruct i as [|i];
    sort_ranges;
    rewrite (spliceLines_footer L m Hv Hne);
    rewrite spliceLines_app by (cbn [range rstart rend line]; lia);
    rewrite spliceLines_app
      by (cbn [range rstart rend line];
          rewrite ?spliceLines_inLine_length by lia; lia);
    match goal with
    | |- context [spliceLines (spliceLines ?X ?e ++ _) _] =>
        destruct (Hgoal (spliceLines X e)) as (rest & Hrest);
        [ rewrite !spliceLines_inLine_length
            by (rewrite ?spliceLines_inLine_length by lia; lia);
          reflexivity
        | exists rest; rewrite Hrest; reflexivity ]
    end.
Qed.

(** On a document with a pragma, the edit of [toggleGuardOrPragma] is
    committed and leaves the guard of the macro around the document. *)
Lemma replacePragma_applied d m :
  validMacro m -> hasPragmaOnce d = true ->
  exists rest,
    applyEdits (lines d)
      (pragmaDeletions d 0 (Nat.min 50 (lineCount d)) ++ insertGuardEdits d m)
    = Some (ifndefText m :: defineText m :: rest ++ [endifText m; []]).
Proof.
  intros Hv Hp. unfold insertGuardEdits.
  destruct (pragmaDeletions_cases d (Nat.min 50 (lineCount d)) 0)
    as [E | (i & Hi & Hpi & [E | [Hi2 E]])]; rewrite E.
  - unfold lineCount. cbn [app].
    rewrite (insertGuard_applied (lines d) m Hv).
    exists ([] :: (if length (lines d) =? 0 then [[]] else lines d)).
    reflexivity.
  - apply replacePragma_delete1; [exact Hv | unfold lineCount in Hi; lia |].
    apply rePragmaOnce_nonempty, Hpi.
  - apply replacePragma_delete2; [exact Hv | exact Hi2 |].
    apply rePragmaOnce_nonempty, Hpi.
Qed.

(** ** UsePragmaOnce on a guarded header *)

Lemma toggle_guarded_usePragmaOnce d g :
  isHeader d = true -> hasPragmaOnce d = false ->
  extractGuardMacro d = Some g ->
  toggleGuardOrPragma d = usePragmaOnce d.
Proof.
  intros Hh Hp Hg. unfold toggleGuardOrPragma, usePragmaOnce.
  rewrite Hh, Hp, Hg. reflexivity.
Qed.

Lemma usePragmaOnce_guard_cases d g :
  isHeader d = true -> hasPragmaOnce d = false ->
  extractGuardMacro d = Some g ->
  (endifLine g < ifndefLine g \/ defineLine g < endifLine g ->
   usePragmaOnce d = (Edited, setLines d (pragmaOnceLines g (lines d))))
  /\ (ifndefLine g < endifLine g < defineLine g ->
      usePragmaOnce d = (EditRejected, d)).
Proof.
  intros Hh Hp Hg.
  destruct (guard_layout d g Hg) as (Hij & Hk & Hlen & _).
  unfold usePragmaOnce, edit, removeGuardEdits, lineAt, lineCount in *.
  rewrite Hh, Hp, Hg. simpl negb. cbv iota. split; intros Hcase.
  - rewrite removeGuard_applied by (assumption || lia). reflexivity.
  - rewrite removeGuard_rejected by lia. reflexivity.
Qed.

(** C7, as the code has it.  On a guarded header without a pragma whose
    [#endif] line does not stand between the [#ifndef] and the [#define]
    line, [UsePragmaOnce] commits one edit: the new document is
    [#pragma once], an empty line, and the old lines without the lines from
    [#ifndef] to [#define] and with the text of the [#endif] line deleted,
    that line staying as an empty line (when the [#define] line is the last
    line, an empty line stays in place of the header lines).  [Toggle] does
    the same on such a header. *)
Theorem usePragmaOnce_guarded (d : TextDocument) (g : GuardInfo) :
  isHeader d = true ->
  hasPragmaOnce d = false ->
  extractGuardMacro d = Some g ->
  endifLine g < ifndefLine g \/ defineLine g < endifLine g ->
  usePragmaOnce d = (Edited, setLines d (pragmaOnceLines g (lines d)))
  /\ toggleGuardOrPragma d = usePragmaOnce d.
Proof.
  intros Hh Hp Hg Hout.
  destruct (usePragmaOnce_guard_cases d g Hh Hp Hg) as [H1 _].
  split; [apply H1, Hout|].
  apply (toggle_guarded_usePragmaOnce d g Hh Hp Hg).
Qed.

Lemma usePragmaOnce_guarded_witness :
  usePragmaOnce guardedFile
  = (Edited,
     mkDocument (str "include/foo.h") None
       [str "#pragma once"; []; str "int x;"; []])
  /\ toggleGuardOrPragma guardedFile = usePragmaOnce guardedFile.
Proof.
  apply (usePragmaOnce_guarded guardedFile (mkGuard (str "FOO_H") 0 1 3)
           eq_refl eq_refl eq_refl).
  right. simpl. lia.
Defined.

(** A guard that ends above its [#ifndef]: the lines come out in the same
    way. *)
Example usePragmaOnce_endif_first :
  usePragmaOnce endifFirstFile
  = (Edited,
     mkDocument (str "a.h") None
       [str "#pragma once"; []; []; str "int x;"]).
Proof. reflexivity. Qed.

(** C7, as the specification has it, fails on a header whose [#endif] stands
    between [#ifndef] and [#define]: the two deletions overlap, the host
    refuses the edit, and the document does not get its pragma. *)
Lemma usePragmaOnce_overlap_rejected :
  isHeader endifInsideFile = true
  /\ hasPragmaOnce endifInsideFile = false
  /\ extractGuardMacro endifInsideFile = Some (mkGuard (str "A") 0 2 1)
  /\ usePragmaOnce endifInsideFile = (EditRejected, endifInsideFile)
  /\ hd [] (lines (snd (usePragmaOnce endifInsideFile))) <> str "#pragma once".
Proof. repeat split. discriminate. Qed.

(** ** Toggle twice *)

Lemma isHeader_setLines d L : isHeader (setLines d L) = isHeader d.
Proof. reflexivity. Qed.

Lemma kind_pragma d : hasPragmaOnce d = true -> protectionKind d = PragmaOnce.
Proof. intros H. unfold protectionKind. rewrite H. reflexivity. Qed.

Lemma kind_guard d g :
  hasPragmaOnce d = false -> extractGuardMacro d = Some g ->
  protectionKind d = Guard.
Proof. intros H1 H2. unfold protectionKind. rewrite H1, H2. reflexivity. Qed.

Lemma kind_cases d :
  (protectionKind d = PragmaOnce /\ hasPragmaOnce d = true)
  \/ (protectionKind d = Guard /\ hasPragmaOnce d = false
      /\ exists g, extractGuardMacro d = Some g)
  \/ (protectionKind d = NoProtection /\ hasPragmaOnce d = false
      /\ extractGuardMacro d = None).
Proof.
  unfold protectionKind. destruct (hasPragmaOnce d); [left; auto|].
  destruct (extractGuardMacro d) as [g|]; simpl.
  - right. left. eauto.
  - right. right. auto.
Qed.

Lemma toggle_guard_written d m rest :
  isHeader d = true -> validMacro m ->
  lines d = ifndefText m :: defineText m :: rest ->
  In (endifText m) rest ->
  protectionKind d = Guard
  /\ protectionKind (snd (toggleGuardOrPragma d)) = PragmaOnce.
Proof.
  intros Hh Hv HL Hin.
  destruct (guarded_lines d m rest Hv HL Hin) as (Hp & k & Hg & Hk & _).
  split; [apply (kind_guard d _ Hp Hg)|].
  rewrite (toggle_guarded_usePragmaOnce d _ Hh Hp Hg).
  destruct (usePragmaOnce_guard_cases d _ Hh Hp Hg) as [H _].
  rewrite H by (simpl; lia). simpl.
  apply kind_pragma.
  apply (pragma_first_line _ (tl (pragmaOnceLines (mkGuard m 0 1 k) (lines d)))).
  reflexivity.
Qed.

Lemma toggle_pragma d :
  isHeader d = true -> hasPragmaOnce d = true ->
  exists rest,
    toggleGuardOrPragma d
    = (Edited,
       setLines d (ifndefText (computeMacro d) :: defineText (computeMacro d)
                   :: rest ++ [endifText (computeMacro d); []])).
Proof.
  intros Hh Hp. unfold toggleGuardOrPragma, edit. rewrite Hh, Hp. simpl negb.
  cbv iota.
  destruct (replacePragma_applied d (computeMacro d) (computeMacro_valid d) Hp)
    as (rest & E).
  rewrite E. exists rest. reflexivity.
Qed.

Lemma toggle_twice_from_pragma d :
  isHeader d = true -> hasPragmaOnce d = true ->
  protectionKind (snd (toggleGuardOrPragma d)) = Guard
  /\ protectionKind (snd (toggleGuardOrPragma (snd (toggleGuardOrPragma d))))
     = PragmaOnce.
Proof.
  intros Hh Hp. destruct (toggle_pragma d Hh Hp) as (rest & E).
  rewrite E. cbn [snd].
  apply (toggle_guard_written _ (computeMacro d)
           (rest ++ [endifText (computeMacro d); []])).
  - exact Hh.
  - apply computeMacro_valid.
  - reflexivity.
  - apply in_or_app. right. left. reflexivity.
Qed.

Lemma toggle_after_usePragmaOnce d g :
  isHeader d = true ->
  protectionKind
    (snd (toggleGuardOrPragma (setLines d (pragmaOnceLines g (lines d)))))
  = Guard.
Proof.
  intros Hh.
  set (d1 := setLines d (pragmaOnceLines g (lines d))).
  assert (Hh1 : isHeader d1 = true).
  { unfold d1. rewrite isHeader_setLines. exact Hh. }
  assert (Hp1 : hasPragmaOnce d1 = true).
  { apply (pragma_first_line d1 (tl (pragmaOnceLines g (lines d)))).
    reflexivity. }
  exact (proj1 (toggle_twice_from_pragma d1 Hh1 Hp1)).
Qed.

Lemma toggle_twice_from_guard d g :
  isHeader d = true -> hasPragmaOnce d = false ->
  extractGuardMacro d = Some g ->
  protectionKind (snd (toggleGuardOrPragma (snd (toggleGuardOrPragma d))))
  = Guard.
Proof.
  intros Hh Hp Hg.
  rewrite (toggle_guarded_usePragmaOnce d g Hh Hp Hg).
  destruct (usePragmaOnce_guard_cases d g Hh Hp Hg) as [Hok Hrej].
  destruct (guard_layout d g Hg) as (_ & _ & _ & [Hc | [Hc | Hc]]).
  - rewrite Hok by auto. cbn [snd]. apply (toggle_after_usePragmaOnce d g Hh).
  - rewrite Hrej by exact Hc. cbn [snd].
    rewrite (toggle_guarded_usePragmaOnce d g Hh Hp Hg).
    rewrite Hrej by exact Hc. cbn [snd]. apply (kind_guard d g Hp Hg).
  - rewrite Hok by auto. cbn [snd]. apply (toggle_after_usePragmaOnce d g Hh).
Qed.

Lemma toggle_twice_from_none d :
  isHeader d = true -> hasPragmaOnce d = false ->
  extractGuardMacro d = None ->
  protectionKind (snd (toggleGuardOrPragma (snd (toggleGuardOrPragma d))))
  = PragmaOnce.
Proof.
  intros Hh Hp Hg.
  assert (E : toggleGuardOrPragma d = insertGuard d).
  { unfold toggleGuardOrPragma. rewrite Hh, Hp, Hg. reflexivity. }
  rewrite E, (insertGuard_unprotected d Hh Hp Hg). cbn [snd].
  apply (toggle_guard_written _ (computeMacro d)
           ([] :: (if lineCount d =? 0 then [[]] else lines d)
               ++ [endifText (computeMacro d); []])).
  - exact Hh.
  - apply computeMacro_valid.
  - reflexivity.
  - right. apply in_or_app. right. left. reflexivity.
Qed.

(** C9, as the code has it.  On a header with a pragma or with a guard, two
    [Toggle] in a row give back the kind of protection the document had; on a
    header without protection they end with a pragma, the first one having
    put a guard. *)
Theorem toggle_twice_kind (d : TextDocument) :
  isHeader d = true ->
  (protectionKind d <> NoProtection ->
   protectionKind (snd (toggleGuardOrPragma (snd (toggleGuardOrPragma d))))
   = protectionKind d)
  /\ (protectionKind d = NoProtection ->
      protectionKind (snd (toggleGuardOrPragma (snd (toggleGuardOrPragma d))))
      = PragmaOnce).
Proof.
  intros Hh.
  destruct (kind_cases d)
    as [[Hk Hp] | [(Hk & Hp & g & Hg) | (Hk & Hp & Hg)]]; rewrite Hk.
  - split; [intros _ | discriminate].
    apply (toggle_twice_from_pragma d Hh Hp).
  - split; [intros _ | discriminate].
    apply (toggle_twice_from_guard d g Hh Hp Hg).
  - split; [congruence | intros _].
    apply (toggle_twice_from_none d Hh Hp Hg).
Qed.

Lemma toggle_twice_kind_witness :
  protectionKind
    (snd (toggleGuardOrPragma (snd (toggleGuardOrPragma guardedFile))))
  = protectionKind guardedFile.
Proof.
  apply (proj1 (toggle_twice_kind guardedFile eq_refl)). discriminate.
Defined.

(** C9, as the specification has it, fails on a header without protection:
    the first [Toggle] puts a guard, the second replaces it by a pragma. *)
Lemma toggle_twice_unprotected :
  isHeader plainFile = true
  /\ protectionKind plainFile = NoProtection
  /\ protectionKind
       (snd (toggleGuardOrPragma (snd (toggleGuardOrPragma plainFile))))
     = PragmaOnce.
Proof. repeat split. Qed.

(** * Further properties of the extension *)

(** ** What InsertGuard writes *)

(** X1.  On a header with neither a pragma nor a guard, [InsertGuard] puts
    three lines above the document and two below it and leaves every line of
    the document as it is. *)
Theorem insertGuard_keeps_lines (d : TextDocument) :
  isHeader d = true ->
  hasPragmaOnce d = false ->
  extractGuardMacro d = None ->
  lines d <> [] ->
  insertGuard d
  = (Edited,
     setLines d ([ifndefText (computeMacro d); defineText (computeMacro d); []]
                 ++ lines d
                 ++ [endifText (computeMacro d); []])).
Proof.
  intros Hh Hp Hg Hne. rewrite (insertGuard_unprotected d Hh Hp Hg).
  unfold lineCount. destruct (lines d) as [|x L]; [congruence|].
  reflexivity.
Qed.

Lemma insertGuard_keeps_lines_witness :
  insertGuard plainFile
  = (Edited,
     mkDocument (str "src/utils/math.h") None
       [str "#ifndef MATH_H"; str "#define MATH_H"; []; str "int x;";
        str "#endif // MATH_H"; []]).
Proof.
  apply (insertGuard_keeps_lines plainFile); try reflexivity. discriminate.
Defined.

Lemma insertGuard_cases d :
  (isHeader d = false /\ insertGuard d = (NotAHeader, d))
  \/ (isHeader d = true /\ protectionKind d <> NoProtection
      /\ insertGuard d = (AlreadyProtected, d))
  \/ (isHeader d = true /\ protectionKind d = NoProtection
      /\ exists rest,
           insertGuard d
           = (Edited,
              setLines d (ifndefText (computeMacro d)
                          :: defineText (computeMacro d) :: rest))
           /\ In (endifText (computeMacro d)) rest).
Proof.
  destruct (isHeader d) eqn:Hh.
  - right. destruct (kind_cases d)
      as [[Hk Hp] | [(Hk & Hp & g & Hg) | (Hk & Hp & Hg)]].
    + left. repeat split; [congruence|].
      unfold insertGuard. rewrite Hh, Hp. reflexivity.
    + left. repeat split; [congruence|].
      unfold insertGuard. rewrite Hh, Hp, Hg. reflexivity.
    + right. repeat split; [exact Hk|].
      rewrite (insertGuard_unprotected d Hh Hp Hg).
      eexists. split; [reflexivity|].
      right. apply in_or_app. right. left. reflexivity.
  - left. split; [reflexivity|]. unfold insertGuard. rewrite Hh. reflexivity.
Qed.

(** X2.  [InsertGuard] twice is [InsertGuard] once: the second call leaves
    the document of the first; on a header it answers [AlreadyProtected], and
    a header is protected after the first call. *)
Theorem insertGuard_twice (d : TextDocument) :
  snd (insertGuard (snd (insertGuard d))) = snd (insertGuard d)
  /\ (isHeader d = true ->
      fst (insertGuard (snd (insertGuard d))) = AlreadyProtected
      /\ protectionKind (snd (insertGuard d)) <> NoProtection).
Proof.
  destruct (insertGuard_cases d)
    as [[Hh E] | [(Hh & Hk & E) | (Hh & Hk & rest & E & Hin)]]; rewrite E;
    cbn [snd].
  - rewrite E. split; [reflexivity | congruence].
  - rewrite E. split; [reflexivity|]. intros _. split; [reflexivity | exact Hk].
  - match goal with |- context [setLines d ?L] => set (d' := setLines d L) end.
    destruct (guarded_lines d' (computeMacro d) rest (computeMacro_valid d)
                eq_refl Hin) as (Hp' & k & Hg' & _).
    assert (E' : insertGuard d' = (AlreadyProtected, d')).
    { unfold insertGuard. rewrite Hp', Hg'.
      replace (isHeader d') with true by (symmetry; exact Hh). reflexivity. }
    rewrite E'. split; [reflexivity|]. intros _. split; [reflexivity|].
    rewrite (kind_guard d' _ Hp' Hg'). discriminate.
Qed.

(** ** What UsePragmaOnce writes *)

Lemma insertPragma_applied L :
  applyEdits L [insertAt (mkPosition 0 0) pragmaText]
  = Some (str "#pragma once" :: [] :: nth 0 L [] :: skipn 1 L).
Proof.
  unfold applyEdits. cbv zeta.
  assert (Hv : validatePosition L (mkPosition 0 0) = mkPosition 0 0).
  { destruct L as [|x L]; [reflexivity|].
    apply validatePosition_inside; simpl; lia. }
  unfold insertAt. cbn [map]. unfold validateEdit. cbn [range rstart rend newText].
  rewrite Hv. cbn [sortByRange fold_right insertSorted overlapping map].
  rewrite spliceLines_front, glue_pragmaText. reflexivity.
Qed.

Lemma usePragmaOnce_plain d :
  isHeader d = true -> hasPragmaOnce d = false -> extractGuardMacro d = None ->
  usePragmaOnce d
  = (Edited,
     setLines d (str "#pragma once" :: [] :: nth 0 (lines d) []
                 :: skipn 1 (lines d))).
Proof.
  intros Hh Hp Hg. unfold usePragmaOnce, edit. rewrite Hh, Hp, Hg.
  simpl negb. cbv iota. rewrite insertPragma_applied. reflexivity.
Qed.

(** X3.  On a header with neither a pragma nor a guard, [UsePragmaOnce] puts
    [#pragma once] and an empty line above the document and leaves every
    line of the document as it is. *)
Theorem usePragmaOnce_keeps_lines (d : TextDocument) :
  isHeader d = true ->
  hasPragmaOnce d = false ->
  extractGuardMacro d = None ->
  lines d <> [] ->
  usePragmaOnce d
  = (Edited, setLines d (str "#pragma once" :: [] :: lines d)).
Proof.
  intros Hh Hp Hg Hne. rewrite (usePragmaOnce_plain d Hh Hp Hg).
  destruct (lines d) as [|x L]; [congruence | reflexivity].
Qed.

Lemma usePragmaOnce_keeps_lines_witness :
  usePragmaOnce plainFile
  = (Edited,
     mkDocument (str "src/utils/math.h") None
       [str "#pragma once"; []; str "int x;"]).
Proof.
  apply (usePragmaOnce_keeps_lines plainFile); try reflexivity. discriminate.
Defined.

Lemma usePragmaOnce_cases d :
  isHeader d = true ->
  usePragmaOnce d = (AlreadyProtected, d) /\ hasPragmaOnce d = true
  \/ (exists rest,
        usePragmaOnce d = (Edited, setLines d (str "#pragma once" :: rest))
        /\ hasPragmaOnce d = false)
  \/ (usePragmaOnce d = (EditRejected, d)
      /\ hasPragmaOnce d = false
      /\ exists g, extractGuardMacro d = Some g
                   /\ ifndefLine g < endifLine g < defineLine g).
Proof.
  intros Hh. destruct (kind_cases d)
    as [[Hk Hp] | [(Hk & Hp & g & Hg) | (Hk & Hp & Hg)]].
  - left. split; [|exact Hp]. unfold usePragmaOnce. rewrite Hh, Hp. reflexivity.
  - right.
    destruct (usePragmaOnce_guard_cases d g Hh Hp Hg) as [Hok Hrej].
    destruct (guard_layout d g Hg) as (_ & _ & _ & [Hc | [Hc | Hc]]).
    + left. eexists. split; [apply Hok; auto | exact Hp].
    + right. split; [apply Hrej, Hc|]. split; [exact Hp|]. eauto.
    + left. eexists. split; [apply Hok; auto | exact Hp].
  - right. left. eexists. split; [apply (usePragmaOnce_plain d Hh Hp Hg)|].
    exact Hp.
Qed.

(** X4.  When [UsePragmaOnce] on a header is not refused by the editor, the
    document has its pragma afterwards, and a second [UsePragmaOnce] answers
    [AlreadyProtected] and changes nothing. *)
Theorem usePragmaOnce_then_protected (d : TextDocument) :
  isHeader d = true ->
  fst (usePragmaOnce d) <> EditRejected ->
  hasPragmaOnce (snd (usePragmaOnce d)) = true
  /\ usePragmaOnce (snd (usePragmaOnce d))
     = (AlreadyProtected, snd (usePragmaOnce d)).
Proof.
  intros Hh Hne.
  assert (Hdone : forall d', isHeader d' = true -> hasPragmaOnce d' = true ->
            hasPragmaOnce d' = true
            /\ usePragmaOnce d' = (AlreadyProtected, d')).
  { intros d' Hh' Hp'. split; [exact Hp'|].
    unfold usePragmaOnce. rewrite Hh', Hp'. reflexivity. }
  destruct (usePragmaOnce_cases d Hh)
    as [[E Hp] | [(rest & E & Hp) | (E & _)]]; rewrite E in *; cbn [fst snd] in *.
  - apply Hdone; assumption.
  - apply Hdone; [exact Hh|]. apply (pragma_first_line _ rest). reflexivity.
  - congruence.
Qed.

Lemma usePragmaOnce_then_protected_witness :
  hasPragmaOnce (snd (usePragmaOnce guardedFile)) = true
  /\ usePragmaOnce (snd (usePragmaOnce guardedFile))
     = (AlreadyProtected, snd (usePragmaOnce guardedFile)).
Proof.
  apply (usePragmaOnce_then_protected guardedFile); [reflexivity|].
  discriminate.
Defined.

(** X5.  The editor refuses the edit of [UsePragmaOnce] on a header exactly
    when the document has no pragma and its guard has the [#endif] line
    between the [#ifndef] and the [#define] line; the document then stays as
    it is. *)
Theorem usePragmaOnce_refused_iff (d : TextDocument) :
  isHeader d = true ->
  (fst (usePragmaOnce d) = EditRejected <->
   hasPragmaOnce d = false
   /\ exists g, extractGuardMacro d = Some g
                /\ ifndefLine g < endifLine g < defineLine g)
  /\ (fst (usePragmaOnce d) = EditRejected -> snd (usePragmaOnce d) = d).
Proof.
  intros Hh.
  destruct (usePragmaOnce_cases d Hh)
    as [[E Hp] | [(rest & E & Hp) | (E & Hp & g & Hg & Hc)]]; rewrite E;
    cbn [fst snd].
  - split; [|discriminate]. split; [discriminate|].
    intros [Hp' _]. congruence.
  - split; [|discriminate]. split; [discriminate|].
    intros (_ & g & Hg & Hc). exfalso.
    destruct (usePragmaOnce_guard_cases d g Hh Hp Hg) as [_ Hrej].
    rewrite (Hrej Hc) in E. discriminate.
  - split; [|reflexivity]. split; [|reflexivity]. intros _. eauto.
Qed.

Lemma usePragmaOnce_refused_iff_witness :
  fst (usePragmaOnce endifInsideFile) = EditRejected
  /\ snd (usePragmaOnce endifInsideFile) = endifInsideFile.
Proof.
  destruct (usePragmaOnce_refused_iff endifInsideFile eq_refl) as [H1 H2].
  split; [|apply H2]; apply H1; (split; [reflexivity|]);
    exists (mkGuard (str "A") 0 2 1); (split; [reflexivity | simpl; lia]).
Defined.

(** ** What Toggle writes on a header with a pragma *)

Lemma dropWhile_nil p (l : jsstring) :
  dropWhile p l = [] -> forallb p l = true.
Proof.
  induction l as [|c l IH]; simpl; [reflexivity|].
  destruct (p c); [exact IH | discriminate].
Qed.

Lemma dropWhile_head p (l : jsstring) c r :
  dropWhile p l = c :: r -> p c = false.
Proof.
  induction l as [|x l IH]; simpl; [discriminate|].
  destruct (p x) eqn:E; [exact IH|]. intros H. inversion H. subst. exact E.
Qed.

Lemma trim_nil t : trim t = [] -> dropWhile isSpace t = [].
Proof.
  unfold trim. intros H.
  assert (H' : dropWhile isSpace (rev (dropWhile isSpace t)) = []).
  { rewrite <- (rev_involutive (dropWhile isSpace (rev _))), H. reflexivity. }
  apply dropWhile_nil in H'. rewrite forallb_forall in H'.
  destruct (dropWhile isSpace t) as [|c r] eqn:E; [reflexivity|].
  pose proof (dropWhile_head _ _ _ _ E) as Hc.
  rewrite (H' c) in Hc; [discriminate|].
  apply in_rev. rewrite rev_involutive. left. reflexivity.
Qed.

Lemma blank_not_pragma t : trim t = [] -> rePragmaOnce t = false.
Proof.
  intros H. unfold rePragmaOnce, directive. rewrite (trim_nil t H). reflexivity.
Qed.

(** The deletions of the loop when the pragma is the first line with
    content. *)
Lemma pragmaDeletions_first d : forall n i0 i,
  i0 <= i < i0 + n ->
  rePragmaOnce (lineAt d i) = true ->
  (forall j, i0 <= j < i -> trim (lineAt d j) = []) ->
  pragmaDeletions d i0 n
  = deleteRange (newRange i 0 i (length (lineAt d i)))
    :: (if (i + 1 <? lineCount d) && eqs (trim (lineAt d (i + 1))) []
        then [deleteRange (newRange (i + 1) 0 (i + 1)
                                    (length (lineAt d (i + 1))))]
        else []).
Proof.
  induction n as [|n IH]; intros i0 i Hi Hp Hblank; [lia|].
  cbn [pragmaDeletions].
  destruct (Nat.eq_dec i i0) as [->|Hne].
  - rewrite Hp. reflexivity.
  - assert (Hb : trim (lineAt d i0) = []) by (apply Hblank; lia).
    rewrite (blank_not_pragma _ Hb), Hb. cbn [eqs negb].
    apply IH; [lia | exact Hp |]. intros j Hj. apply Hblank. lia.
Qed.

Lemma spliceLines_header_exact X B m :
  validMacro m -> X <> [] ->
  spliceLines (X ++ B)
    (mkEdit (mkRange (mkPosition 0 0) (mkPosition 0 0)) (guardHeader m))
  = [ifndefText m; defineText m; []] ++ X ++ B.
Proof.
  intros Hv Hne. rewrite spliceLines_front, (glue_guardHeader _ _ Hv).
  destruct X as [|x X]; [congruence | reflexivity].
Qed.

Lemma replacePragma_delete1_exact L i m :
  validMacro m -> i < length L -> 0 < length (nth i L []) ->
  applyEdits L
    ([deleteRange (newRange i 0 i (length (nth i L [])))]
     ++ [insertAt (mkPosition 0 0) (guardHeader m);
         insertAt (mkPosition (length L) 0) (guardFooter m)])
  = Some ([ifndefText m; defineText m; []] ++ clearLine i L
          ++ [endifText m; []]).
Proof.
  intros Hv Hi Hlen.
  assert (Hne : L <> []) by (apply nonempty_length; lia).
  assert (Hlast : i = length L - 1 ->
                  length (nth i L []) = length (nth (length L - 1) L [])).
  { intros ->. reflexivity. }
  rewrite !newRange_ordered by lia.
  unfold applyEdits. cbn [app]. validate_positions.
  destruct (Nat.eq_dec i (length L - 1)) as [E0|E0];
    [specialize (Hlast E0)|clear Hlast];
    destruct i as [|i];
    sort_ranges;
    rewrite (spliceLines_footer L m Hv Hne);
    rewrite spliceLines_app by (cbn [range rstart rend line]; lia);
    rewrite spliceLines_clearLine by lia;
    rewrite (spliceLines_header_exact _ _ m Hv)
      by (apply nonempty_length; rewrite clearLine_length; lia);
    reflexivity.
Qed.

Lemma nth_clearLine_other k i L :
  i <> k -> nth i (clearLine k L) [] = nth i L [].
Proof.
  intros Hne. unfold clearLine.
  destruct (le_lt_dec (length L) k) as [Hk|Hk].
  - rewrite firstn_all2, skipn_all2 by lia.
    destruct (lt_dec i (length L)) as [Hi|Hi].
    + apply app_nth1, Hi.
    + rewrite app_nth2 by lia. rewrite (nth_overflow L) by lia.
      destruct (i - length L) as [|[|x]]; reflexivity.
  - destruct (lt_dec i k) as [Hi|Hi].
    + rewrite app_nth1 by (rewrite length_firstn; lia).
      rewrite nth_firstn. decide_nat_cmp. reflexivity.
    + rewrite app_nth2 by (rewrite length_firstn; lia).
      rewrite length_firstn, Nat.min_l by lia.
      destruct (i - k) as [|x] eqn:E; [lia|].
      cbn [app nth]. rewrite nth_skipn. f_equal. lia.
Qed.

Lemma replacePragma_delete2_exact L i m :
  validMacro m -> i + 1 < length L -> 0 < length (nth i L []) ->
  applyEdits L
    ([deleteRange (newRange i 0 i (length (nth i L [])));
      deleteRange (newRange (i + 1) 0 (i + 1) (length (nth (i + 1) L [])))]
     ++ [insertAt (mkPosition 0 0) (guardHeader m);
         insertAt (mkPosition (length L) 0) (guardFooter m)])
  = Some ([ifndefText m; defineText m; []]
          ++ clearLine i (clearLine (i + 1) L)
          ++ [endifText m; []]).
Proof.
  intros Hv Hi Hlen.
  assert (Hne : L <> []) by (apply nonempty_length; lia).
  assert (Hlast : i + 1 = length L - 1 ->
                  length (nth (i + 1) L [])
                  = length (nth (length L - 1) L [])).
  { intros ->. reflexivity. }
  assert (Hnth : nth i (clearLine (i + 1) L) [] = nth i L [])
    by (apply nth_clearLine_other; lia).
  rewrite !newRange_ordered by lia.
  unfold applyEdits. cbn [app]. validate_positions.
  destruct (Nat.eq_dec (i + 1) (length L - 1)) as [E0|E0];
    [specialize (Hlast E0)|clear Hlast];
    destruct i as [|i];
    sort_ranges;
    rewrite (spliceLines_footer L m Hv Hne);
    rewrite spliceLines_app by (cbn [range rstart rend line]; lia);
    rewrite (spliceLines_clearLine L) by lia;
    rewrite spliceLines_app
      by (cbn [range rstart rend line]; rewrite ?clearLine_length by lia; lia);
    rewrite spliceLines_clearLine by (rewrite Hnth; lia);
    rewrite (spliceLines_header_exact _ _ m Hv)
      by (apply nonempty_length; rewrite !clearLine_length;
          rewrite ?clearLine_length; lia);
    reflexivity.
Qed.

Lemma hasPragmaOnce_nonempty d : hasPragmaOnce d = true -> 0 < lineCount d.
Proof.
  unfold hasPragmaOnce. destruct (lineCount d) as [|n]; [|lia].
  discriminate.
Qed.

Lemma blank_first_pragma d i :
  i < Nat.min 50 (lineCount d) ->
  rePragmaOnce (lineAt d i) = true ->
  (forall j, j < i -> trim (lineAt d j) = []) ->
  hasPragmaOnce d = true.
Proof.
  intros Hi Hp Hblank. unfold hasPragmaOnce. apply pragmaScan_true.
  exists i. repeat split; [exact Hi | exact Hp |].
  intros j Hj. apply isSubstantive_false. left. apply Hblank, Hj.
Qed.

(** X6.  When the pragma is the first line with content, [Toggle] on the
    header commits one edit: the guard of [computeMacro] is put around the
    document, the text of the pragma line is deleted, and so is the text of
    the line below it when that line is blank; the two lines stay as empty
    lines and every other line is as it was. *)
Theorem toggle_pragma_first (d : TextDocument) (i : nat) :
  isHeader d = true ->
  i < Nat.min 50 (lineCount d) ->
  rePragmaOnce (lineAt d i) = true ->
  (forall j, j < i -> trim (lineAt d j) = []) ->
  toggleGuardOrPragma d
  = (Edited,
     setLines d ([ifndefText (computeMacro d); defineText (computeMacro d); []]
                 ++ pragmaRemoved d i
                 ++ [endifText (computeMacro d); []])).
Proof.
  intros Hh Hi Hp Hblank.
  pose proof (blank_first_pragma d i Hi Hp Hblank) as Hpo.
  pose proof (rePragmaOnce_nonempty _ Hp) as Hlen.
  unfold toggleGuardOrPragma, edit. rewrite Hh, Hpo. simpl negb. cbv iota.
  rewrite (pragmaDeletions_first d _ 0 i) by (auto; try lia; intros; apply Hblank; lia).
  unfold pragmaRemoved, insertGuardEdits.
  destruct ((i + 1 <? lineCount d) && eqs (trim (lineAt d (i + 1))) []) eqn:E.
  - apply andb_true_iff in E. destruct E as [E _]. apply Nat.ltb_lt in E.
    unfold lineAt, lineCount in *.
    rewrite (replacePragma_delete2_exact _ i _ (computeMacro_valid d)) by lia.
    reflexivity.
  - unfold lineAt, lineCount in *.
    rewrite (replacePragma_delete1_exact _ i _ (computeMacro_valid d)) by lia.
    reflexivity.
Qed.

Lemma toggle_pragma_first_witness :
  toggleGuardOrPragma pragmaFile
  = (Edited,
     mkDocument (str "include/a.h") None
       [str "#ifndef A_H"; str "#define A_H"; []; []; []; str "int x;";
        str "#endif // A_H"; []]).
Proof.
  apply (toggle_pragma_first pragmaFile 0).
  - reflexivity.
  - vm_compute. lia.
  - reflexivity.
  - intros j Hj. lia.
Defined.

Lemma replacePragma_exact d m :
  validMacro m -> hasPragmaOnce d = true ->
  exists X,
    length X = lineCount d
    /\ applyEdits (lines d)
         (pragmaDeletions d 0 (Nat.min 50 (lineCount d))
          ++ insertGuardEdits d m)
       = Some ([ifndefText m; defineText m; []] ++ X ++ [endifText m; []]).
Proof.
  intros Hv Hp. pose proof (hasPragmaOnce_nonempty d Hp) as Hn.
  unfold insertGuardEdits, lineCount, lineAt in *.
  destruct (pragmaDeletions_cases d (Nat.min 50 (length (lines d))) 0)
    as [E | (i & Hi & Hpi & [E | [Hi2 E]])];
    unfold lineCount, lineAt in *; rewrite E.
  - exists (lines d). split; [reflexivity|]. cbn [app].
    rewrite (insertGuard_applied (lines d) m Hv). decide_nat_cmp. reflexivity.
  - exists (clearLine i (lines d)). split; [apply clearLine_length; lia|].
    apply replacePragma_delete1_exact; [exact Hv | lia |].
    apply rePragmaOnce_nonempty, Hpi.
  - exists (clearLine i (clearLine (i + 1) (lines d))).
    split; [rewrite !clearLine_length; rewrite ?clearLine_length; lia|].
    apply replacePragma_delete2_exact; [exact Hv | exact Hi2 |].
    apply rePragmaOnce_nonempty, Hpi.
Qed.

(** X7.  [Toggle] on a header with a pragma is always committed, and the
    new document has five lines more than the old one: three of the guard
    above, two below, and no line is removed. *)
Theorem toggle_pragma_line_count (d : TextDocument) :
  isHeader d = true ->
  hasPragmaOnce d = true ->
  fst (toggleGuardOrPragma d) = Edited
  /\ lineCount (snd (toggleGuardOrPragma d)) = lineCount d + 5.
Proof.
  intros Hh Hp. unfold toggleGuardOrPragma, edit. rewrite Hh, Hp.
  simpl negb. cbv iota.
  destruct (replacePragma_exact d (computeMacro d) (computeMacro_valid d) Hp)
    as (X & HX & E).
  rewrite E. cbn [fst snd]. split; [reflexivity|].
  unfold lineCount, setLines. cbn [lines].
  rewrite !length_app. cbn [length]. unfold lineCount in HX. lia.
Qed.

Lemma toggle_pragma_line_count_witness :
  fst (toggleGuardOrPragma commentedPragmaFile) = Edited
  /\ lineCount (snd (toggleGuardOrPragma commentedPragmaFile))
     = lineCount commentedPragmaFile + 5.
Proof.
  apply (toggle_pragma_line_count commentedPragmaFile); reflexivity.
Defined.

(** X8.  After [Toggle] on a header with a pragma, [extractGuardMacro] finds
    the guard in the first two lines, and its macro is [computeMacro] of the
    document. *)
Theorem toggle_pragma_then_extract (d : TextDocument) :
  isHeader d = true ->
  hasPragmaOnce d = true ->
  hasPragmaOnce (snd (toggleGuardOrPragma d)) = false
  /\ exists k,
       extractGuardMacro (snd (toggleGuardOrPragma d))
       = Some (mkGuard (computeMacro d) 0 1 k)
       /\ 2 <= k < lineCount (snd (toggleGuardOrPragma d)).
Proof.
  intros Hh Hp. destruct (toggle_pragma d Hh Hp) as (rest & E).
  rewrite E. cbn [snd].
  match goal with |- context [setLines d ?L] => set (d' := setLines d L) end.
  destruct (guarded_lines d' (computeMacro d)
              (rest ++ [endifText (computeMacro d); []])
              (computeMacro_valid d) eq_refl) as (Hp' & k & Hg & Hk & _).
  - apply in_or_app. right. left. reflexivity.
  - split; [exact Hp'|]. exists k. split; [exact Hg | exact Hk].
Qed.

Lemma toggle_pragma_then_extract_witness :
  hasPragmaOnce (snd (toggleGuardOrPragma pragmaFile)) = false
  /\ exists k,
       extractGuardMacro (snd (toggleGuardOrPragma pragmaFile))
       = Some (mkGuard (computeMacro pragmaFile) 0 1 k)
       /\ 2 <= k < lineCount (snd (toggleGuardOrPragma pragmaFile)).
Proof.
  apply (toggle_pragma_then_extract pragmaFile); reflexivity.
Defined.

(** ** The transitions of Toggle *)

(** X9.  [Toggle] on a header changes the kind of protection: without
    protection it does what [InsertGuard] does and the document gets a
    guard, a pragma becomes a guard, and a guard becomes a pragma unless the
    editor refuses the edit, which leaves the document as it is. *)
Theorem toggle_transitions (d : TextDocument) :
  isHeader d = true ->
  (protectionKind d = NoProtection ->
   toggleGuardOrPragma d = insertGuard d
   /\ fst (toggleGuardOrPragma d) = Edited
   /\ protectionKind (snd (toggleGuardOrPragma d)) = Guard)
  /\ (protectionKind d = PragmaOnce ->
      fst (toggleGuardOrPragma d) = Edited
      /\ protectionKind (snd (toggleGuardOrPragma d)) = Guard)
  /\ (protectionKind d = Guard ->
      (fst (toggleGuardOrPragma d) = Edited
       /\ protectionKind (snd (toggleGuardOrPragma d)) = PragmaOnce)
      \/ toggleGuardOrPragma d = (EditRejected, d)).
Proof.
  intros Hh.
  destruct (kind_cases d)
    as [[Hk Hp] | [(Hk & Hp & g & Hg) | (Hk & Hp & Hg)]]; rewrite Hk;
    (split; [|split]); try discriminate; intros _.
  - split; [|apply (toggle_twice_from_pragma d Hh Hp)].
    destruct (toggle_pragma d Hh Hp) as (rest & E). rewrite E. reflexivity.
  - rewrite (toggle_guarded_usePragmaOnce d g Hh Hp Hg).
    destruct (usePragmaOnce_cases d Hh)
      as [[E Hp'] | [(rest & E & _) | (E & _)]]; [congruence | |].
    + left. rewrite E. cbn [fst snd]. split; [reflexivity|].
      apply kind_pragma, (pragma_first_line _ rest). reflexivity.
    + right. exact E.
  - assert (E : toggleGuardOrPragma d = insertGuard d).
    { unfold toggleGuardOrPragma. rewrite Hh, Hp, Hg. reflexivity. }
    split; [exact E|]. rewrite E, (insertGuard_unprotected d Hh Hp Hg).
    cbn [fst snd]. split; [reflexivity|].
    apply (toggle_guard_written _ (computeMacro d)
             ([] :: (if lineCount d =? 0 then [[]] else lines d)
                 ++ [endifText (computeMacro d); []]));
      [exact Hh | apply computeMacro_valid | reflexivity |].
    right. apply in_or_app. right. left. reflexivity.
Qed.

Lemma toggle_transitions_witness :
  protectionKind (snd (toggleGuardOrPragma plainFile)) = Guard
  /\ protectionKind (snd (toggleGuardOrPragma pragmaFile)) = Guard.
Proof.
  destruct (toggle_transitions plainFile eq_refl) as (H1 & _).
  destruct (toggle_transitions pragmaFile eq_refl) as (_ & H2 & _).
  split; [apply (H1 eq_refl) | apply (H2 eq_refl)].
Defined.

(** ** InsertGuard, then UsePragmaOnce *)

Lemma reEndifMacro_empty m : reEndifMacro m [] = false.
Proof. reflexivity. Qed.

Lemma extractGuard_written d m L :
  validMacro m ->
  lines d = [ifndefText m; defineText m; []] ++ L ++ [endifText m; []] ->
  extractGuardMacro d = Some (mkGuard m 0 1 (length L + 3)).
Proof.
  intros Hv HL.
  destruct (guarded_lines d m ([] :: L ++ [endifText m; []]) Hv HL)
    as (_ & k & Hg & _).
  { right. apply in_or_app. right. left. reflexivity. }
  rewrite Hg. do 2 f_equal.
  unfold extractGuardMacro in Hg.
  destruct (findHeaderPair d) as [[[m' i] [j|]]|]; try discriminate.
  destruct (findEndif d m') as [k'|] eqn:Ek; [|discriminate].
  inversion Hg. subst m' i j k'. clear Hg.
  assert (Hn : lineCount d = length L + 5).
  { unfold lineCount. rewrite HL, !length_app. simpl. lia. }
  assert (Hfoot : lineAt d (length L + 3) = endifText m).
  { unfold lineAt. rewrite HL.
    change ([ifndefText m; defineText m; []] ++ L ++ [endifText m; []])
      with (ifndefText m :: defineText m :: [] :: (L ++ [endifText m; []])).
    replace (length L + 3) with (S (S (S (length L)))) by lia.
    cbn [nth]. rewrite app_nth2 by lia. rewrite Nat.sub_diag. reflexivity. }
  assert (Hlast : lineAt d (length L + 4) = []).
  { unfold lineAt. rewrite HL.
    change ([ifndefText m; defineText m; []] ++ L ++ [endifText m; []])
      with (ifndefText m :: defineText m :: [] :: (L ++ [endifText m; []])).
    replace (length L + 4) with (S (S (S (S (length L))))) by lia.
    cbn [nth]. rewrite app_nth2 by lia.
    replace (S (length L) - length L) with 1 by lia. reflexivity. }
  assert (E : findDown (fun k => reEndifMacro m (lineAt d k)) (lineCount d)
              = Some (length L + 3)).
  { apply findDown_Some. repeat split; [lia | |].
    - rewrite Hfoot. apply reEndifMacro_endifText, Hv.
    - intros j Hj. assert (j = length L + 4) by lia. subst j.
      rewrite Hlast. apply reEndifMacro_empty. }
  unfold findEndif in Ek. rewrite E in Ek. congruence.
Qed.

Lemma clearLine_at_end (X : list jsstring) e y :
  clearLine (length X) (X ++ [e; y]) = X ++ [[]; y].
Proof.
  unfold clearLine.
  rewrite firstn_app, firstn_all, Nat.sub_diag, firstn_O, app_nil_r.
  rewrite skipn_app, (skipn_all2 (n := S (length X))) by lia.
  replace (S (length X) - length X) with 1 by lia. reflexivity.
Qed.

Lemma pragmaOnceLines_written m L :
  pragmaOnceLines (mkGuard m 0 1 (length L + 3))
    ([ifndefText m; defineText m; []] ++ L ++ [endifText m; []])
  = str "#pragma once" :: [] :: [] :: L ++ [[]; []].
Proof.
  unfold pragmaOnceLines. cbn [ifndefLine defineLine endifLine].
  assert (Hlen : length ([ifndefText m; defineText m; []] ++ L
                         ++ [endifText m; []]) = length L + 5).
  { rewrite !length_app. simpl. lia. }
  rewrite Hlen. decide_nat_cmp. rewrite firstn_O. cbn [app].
  do 2 f_equal.
  change (ifndefText m :: defineText m :: [] :: L ++ [endifText m; []])
    with ((ifndefText m :: defineText m :: [] :: L) ++ [endifText m; []]).
  replace (length L + 3)
    with (length (ifndefText m :: defineText m :: [] :: L))
    by (simpl; lia).
  rewrite clearLine_at_end. reflexivity.
Qed.

(** X10.  On a header with neither a pragma nor a guard, [InsertGuard]
    followed by [UsePragmaOnce] leaves [#pragma once], two empty lines, the
    lines of the document as they were, and two empty lines: the guard that
    was put is found again and taken out, and nothing of the document is
    lost.  Two [Toggle] do the same. *)
Theorem insertGuard_then_usePragmaOnce (d : TextDocument) :
  isHeader d = true ->
  hasPragmaOnce d = false ->
  extractGuardMacro d = None ->
  lines d <> [] ->
  usePragmaOnce (snd (insertGuard d))
  = (Edited,
     setLines d (str "#pragma once" :: [] :: [] :: lines d ++ [[]; []]))
  /\ toggleGuardOrPragma (snd (toggleGuardOrPragma d))
     = usePragmaOnce (snd (insertGuard d)).
Proof.
  intros Hh Hp Hg Hne.
  assert (Et : toggleGuardOrPragma d = insertGuard d).
  { unfold toggleGuardOrPragma. rewrite Hh, Hp, Hg. reflexivity. }
  rewrite Et.
  assert (Ei : insertGuard d
          = (Edited,
             setLines d ([ifndefText (computeMacro d);
                          defineText (computeMacro d); []]
                         ++ lines d
                         ++ [endifText (computeMacro d); []]))).
  { rewrite (insertGuard_unprotected d Hh Hp Hg).
    unfold lineCount. destruct (lines d) as [|x L]; [congruence|].
    reflexivity. }
  rewrite Ei. cbn [snd].
  match goal with |- context [setLines d ?L] => set (d' := setLines d L) end.
  pose proof (extractGuard_written d' (computeMacro d) (lines d)
                (computeMacro_valid d) eq_refl) as Hg'.
  destruct (guarded_lines d' (computeMacro d)
              ([] :: lines d ++ [endifText (computeMacro d); []])
              (computeMacro_valid d) eq_refl) as (Hp' & _).
  { right. apply in_or_app. right. left. reflexivity. }
  assert (Hh' : isHeader d' = true) by exact Hh.
  split.
  - destruct (usePragmaOnce_guard_cases d' _ Hh' Hp' Hg') as [Hok _].
    rewrite Hok by (right; simpl; lia).
    unfold d' at 2. cbn [lines setLines].
    rewrite pragmaOnceLines_written. reflexivity.
  - apply (toggle_guarded_usePragmaOnce d' _ Hh' Hp' Hg').
Qed.

Lemma insertGuard_then_usePragmaOnce_witness :
  usePragmaOnce (snd (insertGuard plainFile))
  = (Edited,
     mkDocument (str "src/utils/math.h") None
       [str "#pragma once"; []; []; str "int x;"; []; []])
  /\ toggleGuardOrPragma (snd (toggleGuardOrPragma plainFile))
     = usePragmaOnce (snd (insertGuard plainFile)).
Proof.
  apply (insertGuard_then_usePragmaOnce plainFile); try reflexivity.
  discriminate.
Defined.

(** ** What a guard is made of *)

Lemma takeWhile_forallb p (s : jsstring) : forallb p (takeWhile p s) = true.
Proof.
  induction s as [|c s IH]; simpl; [reflexivity|].
  destruct (p c) eqn:E; simpl; [rewrite E; exact IH | reflexivity].
Qed.

Lemma reIfndef_valid t m : reIfndef t = Some m -> validMacro m.
Proof.
  unfold reIfndef. destruct (directive (str "ifndef") t) as [r|]; [|discriminate].
  destruct (spaces1 r) as [r'|]; [|discriminate].
  pose proof (takeWhile_forallb isMacroChar r') as H.
  destruct (takeWhile isMacroChar r') as [|c s]; [discriminate|].
  intros E. inversion E. subst m. split; [discriminate | exact H].
Qed.

(** X11.  The macro of a guard that [extractGuardMacro] returns is not
    empty and consists of capital letters, digits and underscores; the three
    lines of the guard are three different lines of the document, and the
    last of them matches the [#endif] pattern. *)
Theorem extractGuard_well_formed (d : TextDocument) (g : GuardInfo) :
  extractGuardMacro d = Some g ->
  macro g <> []
  /\ forallb isMacroChar (macro g) = true
  /\ ifndefLine g < defineLine g < lineCount d
  /\ endifLine g < lineCount d
  /\ endifLine g <> ifndefLine g
  /\ endifLine g <> defineLine g
  /\ reEndif (lineAt d (endifLine g)) = true.
Proof.
  intros Hg.
  destruct (guard_layout d g Hg) as (Hij & Hk & _ & Hc).
  destruct (extractGuardMacro_Some d g Hg)
    as (_ & Hm & _ & _ & _ & _ & _ & He).
  destruct (reIfndef_valid _ _ Hm) as [Hne Hall].
  repeat split; auto; lia.
Qed.

Lemma extractGuard_well_formed_witness :
  macro (mkGuard (str "A") 1 2 0) <> []
  /\ forallb isMacroChar (macro (mkGuard (str "A") 1 2 0)) = true
  /\ 1 < 2 < lineCount endifFirstFile
  /\ 0 < lineCount endifFirstFile
  /\ 0 <> 1
  /\ 0 <> 2
  /\ reEndif (lineAt endifFirstFile 0) = true.
Proof.
  apply (extractGuard_well_formed endifFirstFile (mkGuard (str "A") 1 2 0)).
  reflexivity.
Defined.

(** ** The file of a document under the commands *)




(** ** The status bar *)




(** ** The name of a header *)

Lemma sanitize_app a b : sanitize (a ++ b) = sanitize a ++ sanitize b.
Proof.
  unfold sanitize, toUpperCase. rewrite flat_map_app, map_app. reflexivity.
Qed.

Lemma sanitize_cons c s : sanitize (c :: s) = sanitize [c] ++ sanitize s.
Proof. apply (sanitize_app [c] s). Qed.

Lemma lower_dot c : lowerUnit c = "." -> c = ".".
Proof. by_cases_on_unit c. Qed.

Lemma lower_h c : lowerUnit c = "h" -> c = "h" \/ c = "H".
Proof. by_cases_on_unit c. Qed.

Lemma lower_p c : lowerUnit c = "p" -> c = "p" \/ c = "P".
Proof. by_cases_on_unit c. Qed.

Lemma lower_x c : lowerUnit c = "x" -> c = "x" \/ c = "X".
Proof. by_cases_on_unit c. Qed.

Ltac invert_lowered :=
  repeat match goal with
  | H : toLowerCase ?e = _ |- _ => unfold toLowerCase in H
  | H : map lowerUnit ?e = _ :: _ |- _ =>
      destruct e; [discriminate H|]; cbn [map] in H;
      let Hc := fresh "Hc" in
      let Ht := fresh "Ht" in
      injection H as Hc Ht
  | H : map lowerUnit ?e = [] |- _ =>
      destruct e; [clear H | discriminate H]
  | H : lowerUnit _ = "." |- _ => apply lower_dot in H; subst
  | H : lowerUnit _ = "h" |- _ => apply lower_h in H; destruct H; subst
  | H : lowerUnit _ = "p" |- _ => apply lower_p in H; destruct H; subst
  | H : lowerUnit _ = "x" |- _ => apply lower_x in H; destruct H; subst
  end.

Lemma header_extension_shape e :
  In (toLowerCase e) headerExtensions ->
  exists x,
    e = "." :: x /\ x <> [] /\ forallb plainChar x = true
    /\ (sanitize e = str "_H" \/ sanitize e = str "_HPP"
        \/ sanitize e = str "_HH" \/ sanitize e = str "_HXX").
Proof.
  unfold headerExtensions. cbn [In str list_ascii_of_string].
  intros [H | [H | [H | [H | []]]]]; symmetry in H; invert_lowered;
    eexists; (split; [reflexivity|]); (split; [discriminate|]);
    (split; [reflexivity|]); vm_compute; tauto.
Qed.

(** X14.  For a path that ends in one of the four extensions, in upper or
    lower case, nothing is added to the name: the macro is the part before
    the extension, cleaned, followed by [_H], [_HPP], [_HH] or [_HXX]. *)
Theorem computeMacro_header_path (d : TextDocument) (stem e : jsstring) :
  match workspaceRelative d with
  | Some r => r
  | None => basename (fileName d)
  end = stem ++ e ->
  In (toLowerCase e) headerExtensions ->
  computeMacro d = sanitize stem ++ sanitize e
  /\ In (sanitize e) [str "_H"; str "_HPP"; str "_HH"; str "_HXX"].
Proof.
  intros Hrel He. unfold computeMacro. rewrite Hrel, sanitize_app.
  destruct (header_extension_shape e He) as (x & _ & _ & _ & Hs).
  assert (Hsuf : reHeaderSuffix (sanitize stem ++ sanitize e) = true).
  { unfold reHeaderSuffix.
    destruct Hs as [-> | [-> | [-> | ->]]]; rewrite endsWith_app;
      rewrite ?orb_true_r; reflexivity. }
  rewrite Hsuf. split; [reflexivity|].
  cbn [In]. destruct Hs as [-> | [-> | [-> | ->]]]; auto.
Qed.

Lemma computeMacro_header_path_witness :
  computeMacro (mkDocument (str "/ws/src/Vec.HPP") (Some (str "src/Vec.HPP"))
                           [[]])
  = sanitize (str "src/Vec") ++ sanitize (str ".HPP")
  /\ In (sanitize (str ".HPP")) [str "_H"; str "_HPP"; str "_HH"; str "_HXX"].
Proof.
  apply (computeMacro_header_path
           (mkDocument (str "/ws/src/Vec.HPP") (Some (str "src/Vec.HPP")) [[]])
           (str "src/Vec") (str ".HPP")).
  - reflexivity.
  - right. left. reflexivity.
Defined.

(** ** Which files are headers *)

Lemma dropWhile_app_stop p (y r : jsstring) :
  match y with c :: _ => p c = false | [] => False end ->
  dropWhile p (y ++ r) = y ++ r.
Proof.
  destruct y as [|c y]; [contradiction|]. intros H. simpl. rewrite H.
  reflexivity.
Qed.

Lemma takeWhile_app_all p (y r : jsstring) :
  forallb p y = true -> takeWhile p (y ++ r) = y ++ takeWhile p r.
Proof.
  induction y as [|c y IH]; simpl; [reflexivity|].
  intros H. apply andb_true_iff in H. destruct H as [Hc Hy].
  rewrite Hc, (IH Hy). reflexivity.
Qed.

Lemma forallb_rev p (y : jsstring) :
  forallb p y = true -> forallb p (rev y) = true.
Proof.
  rewrite !forallb_forall. intros H c Hc. apply H, in_rev, Hc.
Qed.

Lemma basename_tail dir y :
  y <> [] -> forallb (fun c => negb (isSlash c)) y = true ->
  basename (dir ++ y)
  = rev (takeWhile (fun c => negb (isSlash c)) (rev dir)) ++ y.
Proof.
  intros Hne Hy. unfold basename. rewrite rev_app_distr.
  pose proof (forallb_rev _ y Hy) as Hr.
  rewrite dropWhile_app_stop.
  - rewrite (takeWhile_app_all _ _ _ Hr), rev_app_distr, rev_involutive.
    reflexivity.
  - destruct (rev y) as [|c r] eqn:E.
    + apply Hne. rewrite <- (rev_involutive y), E. reflexivity.
    + simpl in Hr. apply andb_true_iff in Hr. destruct Hr as [Hc _].
      apply negb_true_iff in Hc. exact Hc.
Qed.

Lemma plain_not_slash x :
  forallb plainChar x = true -> forallb (fun c => negb (isSlash c)) x = true.
Proof.
  induction x as [|c x IH]; simpl; [reflexivity|].
  intros H. apply andb_true_iff in H. destruct H as [Hc Hx].
  unfold plainChar in Hc. apply andb_true_iff in Hc. destruct Hc as [Hc _].
  rewrite Hc. apply IH, Hx.
Qed.

Lemma plain_not_dot x :
  forallb plainChar x = true ->
  forallb (fun c => negb (Ascii.eqb c ".")) x = true.
Proof.
  induction x as [|c x IH]; simpl; [reflexivity|].
  intros H. apply andb_true_iff in H. destruct H as [Hc Hx].
  unfold plainChar in Hc. apply andb_true_iff in Hc. destruct Hc as [_ Hc].
  rewrite Hc. apply IH, Hx.
Qed.

Lemma last_segment_nonempty stem :
  isSlash (last stem "/") = false ->
  rev (takeWhile (fun c => negb (isSlash c)) (rev stem)) <> [].
Proof.
  intros H. destruct stem as [|a s] using rev_ind; [discriminate H|].
  rewrite last_last in H. rewrite rev_app_distr. simpl. rewrite H. simpl.
  intros E. apply app_eq_nil in E. destruct E as [_ E]. discriminate.
Qed.

Lemma last_segment_empty dir :
  isSlash (last dir "/") = true ->
  rev (takeWhile (fun c => negb (isSlash c)) (rev dir)) = [].
Proof.
  intros H. destruct dir as [|a s] using rev_ind; [reflexivity|].
  rewrite last_last in H. rewrite rev_app_distr. simpl. rewrite H. reflexivity.
Qed.

Lemma extname_dotted p b0 x :
  basename p = b0 ++ "." :: x ->
  forallb (fun c => negb (Ascii.eqb c ".")) x = true ->
  extname p = if length b0 =? 0 then []
              else if eqs (b0 ++ "." :: x) (str "..") then []
              else "." :: x.
Proof.
  intros Hb Hx. unfold extname. rewrite Hb.
  assert (E : rev (takeWhile (fun c => negb (Ascii.eqb c "."))
                             (rev (b0 ++ "." :: x))) = x).
  { rewrite rev_app_distr. cbn [rev]. rewrite <- app_assoc. cbn [app].
    rewrite (takeWhile_all _ (rev x) ("." :: rev b0) (forallb_rev _ x Hx))
      by reflexivity.
    apply rev_involutive. }
  rewrite E, length_app. cbn [length].
  destruct b0 as [|c b0]; cbn [length]; decide_nat_cmp; reflexivity.
Qed.

Lemma extname_undotted p :
  forallb (fun c => negb (Ascii.eqb c ".")) (basename p) = true ->
  extname p = [].
Proof.
  intros Hb. unfold extname.
  pose proof (takeWhile_all _ (rev (basename p)) []
                (forallb_rev _ _ Hb) I) as E.
  rewrite app_nil_r in E. rewrite E, rev_involutive.
  decide_nat_cmp. reflexivity.
Qed.

(** X15.  A file whose name ends in [.h], [.hpp], [.hh] or [.hxx], in upper
    or lower case, after at least one character of the last portion of the
    path, is a header. *)
Theorem isHeader_by_name (d : TextDocument) (stem e : jsstring) :
  fileName d = stem ++ e ->
  isSlash (last stem "/") = false ->
  In (toLowerCase e) headerExtensions ->
  isHeader d = true.
Proof.
  intros Hf Hstem He.
  destruct (header_extension_shape e He) as (x & -> & Hne & Hx & _).
  assert (Hb : basename (fileName d)
               = rev (takeWhile (fun c => negb (isSlash c)) (rev stem))
                 ++ "." :: x).
  { rewrite Hf. apply basename_tail; [discriminate|].
    cbn [forallb]. rewrite (plain_not_slash x Hx). reflexivity. }
  pose proof (last_segment_nonempty stem Hstem) as Hseg.
  unfold isHeader.
  rewrite (extname_dotted _ _ _ Hb (plain_not_dot x Hx)).
  destruct (rev (takeWhile _ (rev stem))) as [|c seg]; [congruence|].
  cbn [length]. decide_nat_cmp.
  assert (Hdd : eqs ((c :: seg) ++ "." :: x) (str "..") = false).
  { apply not_true_is_false. intros E. apply eqs_eq in E.
    apply (f_equal (@length ascii)) in E. rewrite length_app in E.
    destruct x; [congruence|]. simpl in E. lia. }
  rewrite Hdd. apply existsb_exists. exists (toLowerCase ("." :: x)).
  split; [exact He | apply eqs_eq; reflexivity].
Qed.

Lemma isHeader_by_name_witness :
  isHeader (mkDocument (str "/ws/src/Vec.HPP") None [[]]) = true.
Proof.
  apply (isHeader_by_name (mkDocument (str "/ws/src/Vec.HPP") None [[]])
           (str "/ws/src/Vec") (str ".HPP")).
  - reflexivity.
  - reflexivity.
  - right. left. reflexivity.
Defined.

(** X16.  A file is no header when the last portion of its path has no dot,
    or has its only dot in front, as in a file called [.h] or [.hpp]. *)
Theorem isHeader_needs_stem (d : TextDocument) (dir x : jsstring) :
  isSlash (last dir "/") = true ->
  forallb plainChar x = true ->
  (fileName d = dir ++ "." :: x -> isHeader d = false)
  /\ (x <> [] -> fileName d = dir ++ x -> isHeader d = false).
Proof.
  intros Hdir Hx. pose proof (last_segment_empty dir Hdir) as Hseg. split.
  - intros Hf.
    assert (Hb : basename (fileName d) = [] ++ "." :: x).
    { rewrite Hf, basename_tail, Hseg; [reflexivity | discriminate |].
      cbn [forallb]. rewrite (plain_not_slash x Hx). reflexivity. }
    unfold isHeader.
    rewrite (extname_dotted _ _ _ Hb (plain_not_dot x Hx)). reflexivity.
  - intros Hne Hf.
    assert (Hb : basename (fileName d) = x).
    { rewrite Hf, basename_tail, Hseg;
        [reflexivity | exact Hne | apply plain_not_slash, Hx]. }
    unfold isHeader. rewrite extname_undotted; [reflexivity|].
    rewrite Hb. apply plain_not_dot, Hx.
Qed.

Lemma isHeader_needs_stem_witness :
  isHeader (mkDocument (str "include/.hpp") None [[]]) = false
  /\ isHeader (mkDocument (str "include/hpp") None [[]]) = false.
Proof.
  split.
  - apply (proj1 (isHeader_needs_stem
                    (mkDocument (str "include/.hpp") None [[]])
                    (str "include/") (str "hpp") eq_refl eq_refl)).
    reflexivity.
  - apply (proj2 (isHeader_needs_stem
                    (mkDocument (str "include/hpp") None [[]])
                    (str "include/") (str "hpp") eq_refl eq_refl)).
    + discriminate.
    + reflexivity.
Defined.

(** ** The windows of the two scans *)

Lemma pragmaScan_window d d' : forall n i,
  (forall k, i <= k < i + n -> lineAt d k = lineAt d' k) ->
  pragmaScan d i n = pragmaScan d' i n.
Proof.
  induction n as [|n IH]; intros i H; [reflexivity|].
  cbn [pragmaScan]. rewrite (H i) by lia.
  destruct (rePragmaOnce (lineAt d' i)); [reflexivity|].
  destruct (isSubstantive (lineAt d' i)); [reflexivity|].
  apply IH. intros k Hk. apply H. lia.
Qed.

Lemma findUp_window (p q : nat -> bool) : forall n lo,
  (forall k, lo <= k < lo + n -> p k = q k) ->
  findUp p lo n = findUp q lo n.
Proof.
  induction n as [|n IH]; intros lo H; [reflexivity|].
  cbn [findUp]. rewrite (H lo) by lia.
  destruct (q lo); [reflexivity|]. apply IH. intros k Hk. apply H. lia.
Qed.

Lemma firstn_window (w : nat) (L L' : list jsstring) :
  firstn w L = firstn w L' ->
  Nat.min w (length L) = Nat.min w (length L')
  /\ forall k, k < Nat.min w (length L) -> nth k L [] = nth k L' [].
Proof.
  intros H. split.
  - rewrite <- !length_firstn, H. reflexivity.
  - intros k Hk.
    assert (E : forall X : list jsstring,
              k < w -> nth k (firstn w X) [] = nth k X []).
    { intros X Hw. rewrite nth_firstn. decide_nat_cmp. reflexivity. }
    rewrite <- (E L), <- (E L'), H by lia. reflexivity.
Qed.

(** X17.  [hasPragmaOnce] reads the first 50 lines only, and the search for
    the [#ifndef] and [#define] lines the first 60 only: two documents that
    agree on these lines get the same answer. *)
Theorem scans_read_the_top (d d' : TextDocument) :
  (firstn 50 (lines d) = firstn 50 (lines d') ->
   hasPragmaOnce d = hasPragmaOnce d')
  /\ (firstn 60 (lines d) = firstn 60 (lines d') ->
      findHeaderPair d = findHeaderPair d').
Proof.
  split; intros H; apply firstn_window in H; destruct H as [Hmin Hnth].
  - unfold hasPragmaOnce, lineCount. rewrite <- Hmin.
    apply pragmaScan_window. intros k Hk. apply Hnth. lia.
  - unfold findHeaderPair, lineCount. rewrite <- Hmin.
    set (w := Nat.min 60 (length (lines d))) in *.
    rewrite (findUp_window (fun i => isSome (reIfndef (lineAt d i)))
                           (fun i => isSome (reIfndef (lineAt d' i))) w 0)
      by (intros k Hk; unfold lineAt; rewrite Hnth by lia; reflexivity).
    destruct (findUp _ 0 w) as [i|] eqn:E; [|reflexivity].
    apply findUp_Some in E. destruct E as (Hi & _).
    assert (El : lineAt d i = lineAt d' i) by (apply Hnth; lia).
    rewrite El. destruct (reIfndef (lineAt d' i)) as [m|]; [|reflexivity].
    do 2 f_equal. apply findUp_window. intros k Hk.
    unfold lineAt. rewrite Hnth by lia. reflexivity.
Qed.

Lemma scans_read_the_top_witness :
  hasPragmaOnce (mkDocument (str "a.h") None
                            (repeat [] 50 ++ [str "#pragma once"]))
  = hasPragmaOnce (mkDocument (str "a.h") None (repeat [] 50 ++ [str "int x;"])).
Proof.
  apply (proj1 (scans_read_the_top
                  (mkDocument (str "a.h") None
                              (repeat [] 50 ++ [str "#pragma once"]))
                  (mkDocument (str "a.h") None
                              (repeat [] 50 ++ [str "int x;"])))).
  reflexivity.
Defined.

(** ** The lines the patterns accept *)

Lemma dropWhile_spaces_app ws t :
  forallb isSpace ws = true ->
  dropWhile isSpace (ws ++ t) = dropWhile isSpace t.
Proof.
  induction ws as [|c ws IH]; simpl; [reflexivity|].
  intros H. apply andb_true_iff in H. destruct H as [Hc Hws].
  rewrite Hc. apply IH, Hws.
Qed.

Lemma takeWhile_dropWhile p (t : jsstring) :
  t = takeWhile p t ++ dropWhile p t.
Proof.
  induction t as [|c t IH]; simpl; [reflexivity|].
  destruct (p c); [simpl; f_equal; exact IH | reflexivity].
Qed.

Lemma startsWith_app_skipn (w s : jsstring) :
  startsWith w s = true -> w ++ skipn (length w) s = s.
Proof.
  revert s. induction w as [|a w IH]; intros s H; [reflexivity|].
  destruct s as [|b s]; [discriminate|]. simpl in H.
  apply andb_true_iff in H. destruct H as [Hab Hw].
  apply Ascii.eqb_eq in Hab. subst b. simpl. f_equal. apply IH, Hw.
Qed.

Lemma directive_iff kw t r :
  match kw with k :: _ => isSpace k = false | [] => False end ->
  (directive kw t = Some r <->
   exists ws ws2,
     forallb isSpace ws = true /\ forallb isSpace ws2 = true
     /\ t = ws ++ "#" :: ws2 ++ kw ++ r).
Proof.
  intros Hk. split.
  - unfold directive. intros H.
    destruct (dropWhile isSpace t) as [|c s] eqn:E1; [discriminate|].
    destruct (Ascii.eqb c "#") eqn:Ec; [|discriminate].
    apply Ascii.eqb_eq in Ec. subst c.
    destruct (startsWith kw (dropWhile isSpace s)) eqn:Es; [|discriminate].
    inversion H. subst r. clear H.
    exists (takeWhile isSpace t), (takeWhile isSpace s).
    repeat split; try apply takeWhile_forallb.
    rewrite (startsWith_app_skipn kw _ Es).
    rewrite <- (takeWhile_dropWhile isSpace s), <- E1.
    apply takeWhile_dropWhile.
  - intros (ws & ws2 & Hws & Hws2 & ->). unfold directive.
    rewrite (dropWhile_spaces_app ws _ Hws).
    rewrite (dropWhile_stop isSpace "#" _ eq_refl), Ascii.eqb_refl.
    rewrite (dropWhile_spaces_app ws2 _ Hws2).
    rewrite (dropWhile_app_stop isSpace kw r Hk).
    rewrite startsWith_app, skipn_length_app. reflexivity.
Qed.

Lemma spaces1_iff t r :
  match r with c :: _ => isSpace c = false | [] => True end ->
  (spaces1 t = Some r <->
   exists ws, ws <> [] /\ forallb isSpace ws = true /\ t = ws ++ r).
Proof.
  intros Hr. split.
  - unfold spaces1. destruct t as [|c s]; [discriminate|].
    destruct (isSpace c) eqn:Ec; [|discriminate].
    intros H. inversion H. subst r. clear H.
    exists (c :: takeWhile isSpace s). split; [discriminate|]. split.
    + simpl. rewrite Ec. apply takeWhile_forallb.
    + simpl. f_equal. apply takeWhile_dropWhile.
  - intros (ws & Hne & Hws & ->). destruct ws as [|c ws]; [congruence|].
    simpl in Hws. apply andb_true_iff in Hws. destruct Hws as [Hc Hws].
    unfold spaces1. simpl. rewrite Hc, (dropWhile_spaces_app ws r Hws).
    destruct r as [|x r]; [reflexivity|]. simpl. rewrite Hr. reflexivity.
Qed.

Lemma spaces1_rest t r :
  spaces1 t = Some r -> match r with c :: _ => isSpace c = false | [] => True end.
Proof.
  unfold spaces1. destruct t as [|c s]; [discriminate|].
  destruct (isSpace c); [|discriminate]. intros H. inversion H.
  destruct (dropWhile isSpace s) as [|x r'] eqn:E; [exact I|].
  apply (dropWhile_head _ _ _ _ E).
Qed.

(** X18.  The pragma pattern accepts exactly the lines made of white space,
    [#], white space, [pragma], at least one white space, [once], and then
    nothing or a text that does not go on with a letter, a digit or an
    underscore. *)
Theorem rePragmaOnce_language (t : jsstring) :
  rePragmaOnce t = true <->
  exists ws ws2 ws3 r,
    forallb isSpace ws = true /\ forallb isSpace ws2 = true
    /\ forallb isSpace ws3 = true /\ ws3 <> []
    /\ match r with c :: _ => isWordChar c = false | [] => True end
    /\ t = ws ++ "#" :: ws2 ++ str "pragma" ++ ws3 ++ str "once" ++ r.
Proof.
  unfold rePragmaOnce. split.
  - destruct (directive (str "pragma") t) as [r1|] eqn:E1; [|discriminate].
    destruct (spaces1 r1) as [r2|] eqn:E2; [|discriminate].
    intros H. apply andb_true_iff in H. destruct H as [Hs Hb].
    apply (directive_iff (str "pragma") t r1 eq_refl) in E1.
    destruct E1 as (ws & ws2 & Hws & Hws2 & ->).
    pose proof (spaces1_rest _ _ E2) as Hr2.
    apply (spaces1_iff r1 r2 Hr2) in E2. destruct E2 as (ws3 & Hne & Hws3 & ->).
    pose proof (startsWith_app_skipn _ _ Hs) as E.
    exists ws, ws2, ws3, (skipn 4 r2). repeat split; auto.
    + destruct (skipn 4 r2) as [|c r]; [exact I|].
      unfold wordBoundary in Hb. simpl in Hb.
      destruct (isWordChar c); [discriminate | reflexivity].
    + apply (f_equal (app ws)), (f_equal (cons "#")), (f_equal (app ws2)),
        (f_equal (app (str "pragma"))), (f_equal (app ws3)).
      symmetry. exact E.
  - intros (ws & ws2 & ws3 & r & Hws & Hws2 & Hws3 & Hne & Hr & ->).
    assert (E1 : directive (str "pragma")
                   (ws ++ "#" :: ws2 ++ str "pragma" ++ ws3 ++ str "once" ++ r)
                 = Some (ws3 ++ str "once" ++ r)).
    { apply (directive_iff (str "pragma") _ _ eq_refl). exists ws, ws2. auto. }
    assert (E2 : spaces1 (ws3 ++ str "once" ++ r) = Some (str "once" ++ r)).
    { apply spaces1_iff; [reflexivity|]. exists ws3. auto. }
    rewrite E1, E2, startsWith_app.
    change (skipn 4 (str "once" ++ r)) with r.
    destruct r as [|c r]; [reflexivity|]. unfold wordBoundary. simpl.
    rewrite Hr. reflexivity.
Qed.

(** X19.  The [#ifndef] pattern accepts exactly the lines made of white
    space, [#], white space, [ifndef], at least one white space and a name of
    capital letters, digits and underscores; the macro it gives is the whole
    name, up to the first character that is none of these. *)
Theorem reIfndef_language (t m : jsstring) :
  reIfndef t = Some m <->
  exists ws ws2 ws3 r,
    forallb isSpace ws = true /\ forallb isSpace ws2 = true
    /\ forallb isSpace ws3 = true /\ ws3 <> []
    /\ m <> [] /\ forallb isMacroChar m = true
    /\ match r with c :: _ => isMacroChar c = false | [] => True end
    /\ t = ws ++ "#" :: ws2 ++ str "ifndef" ++ ws3 ++ m ++ r.
Proof.
  unfold reIfndef. split.
  - destruct (directive (str "ifndef") t) as [r1|] eqn:E1; [|discriminate].
    destruct (spaces1 r1) as [r2|] eqn:E2; [|discriminate].
    intros H.
    apply (directive_iff (str "ifndef") t r1 eq_refl) in E1.
    destruct E1 as (ws & ws2 & Hws & Hws2 & ->).
    pose proof (spaces1_rest _ _ E2) as Hr2.
    apply (spaces1_iff r1 r2 Hr2) in E2. destruct E2 as (ws3 & Hne & Hws3 & ->).
    assert (Hm : takeWhile isMacroChar r2 = m).
    { destruct (takeWhile isMacroChar r2); [discriminate | congruence]. }
    exists ws, ws2, ws3, (dropWhile isMacroChar r2).
    repeat split; auto.
    + intros ->. rewrite Hm in H. discriminate.
    + rewrite <- Hm. apply takeWhile_forallb.
    + destruct (dropWhile isMacroChar r2) as [|c r] eqn:E; [exact I|].
      apply (dropWhile_head _ _ _ _ E).
    + rewrite <- Hm, <- takeWhile_dropWhile. reflexivity.
  - intros (ws & ws2 & ws3 & r & Hws & Hws2 & Hws3 & Hne & Hm & Hall & Hr & ->).
    assert (E1 : directive (str "ifndef")
                   (ws ++ "#" :: ws2 ++ str "ifndef" ++ ws3 ++ m ++ r)
                 = Some (ws3 ++ m ++ r)).
    { apply (directive_iff (str "ifndef") _ _ eq_refl). exists ws, ws2. auto. }
    assert (E2 : spaces1 (ws3 ++ m ++ r) = Some (m ++ r)).
    { apply spaces1_iff; [|exists ws3; auto].
      destruct m as [|c m']; [congruence|]. simpl in Hall.
      apply andb_true_iff in Hall. destruct Hall as [Hc _].
      apply macroChar_not_space, Hc. }
    rewrite E1, E2, (takeWhile_all isMacroChar m r Hall Hr).
    destruct m; [congruence | reflexivity].
Qed.

Lemma directive_keyword kw1 kw2 t r1 r2 :
  directive kw1 t = Some r1 -> directive kw2 t = Some r2 ->
  kw1 <> [] -> kw2 <> [] -> hd_error kw1 = hd_error kw2.
Proof.
  unfold directive. destruct (dropWhile isSpace t) as [|c s]; [discriminate|].
  destruct (Ascii.eqb c "#"); [|discriminate].
  destruct (dropWhile isSpace s) as [|x s'];
    destruct kw1 as [|a1 k1], kw2 as [|a2 k2]; try congruence;
    try discriminate.
  cbn [startsWith hd_error].
  destruct (Ascii.eqb a1 x) eqn:E1; [|discriminate].
  destruct (Ascii.eqb a2 x) eqn:E2; [|discriminate].
  apply Ascii.eqb_eq in E1, E2. congruence.
Qed.

(** X20.  A line has at most one part in a protection: a line that matches
    one of the patterns for the pragma, [#ifndef], [#define] and [#endif]
    matches none of the other three. *)
Theorem patterns_exclusive (t m : jsstring) :
  (rePragmaOnce t = true ->
   reIfndef t = None /\ reDefine m t = false /\ reEndif t = false)
  /\ (reIfndef t <> None -> reDefine m t = false /\ reEndif t = false)
  /\ (reDefine m t = true -> reEndif t = false).
Proof.
  assert (Hx : forall kw1 kw2,
            kw1 <> [] -> kw2 <> [] -> hd_error kw1 <> hd_error kw2 ->
            directive kw1 t <> None -> directive kw2 t = None).
  { intros kw1 kw2 H1 H2 Hd Hsome.
    destruct (directive kw1 t) as [r1|] eqn:E1; [|congruence].
    destruct (directive kw2 t) as [r2|] eqn:E2; [|reflexivity].
    exfalso. apply Hd. apply (directive_keyword kw1 kw2 t r1 r2); assumption. }
  unfold rePragmaOnce, reIfndef, reDefine, reEndif.
  split; [|split].
  - intros H.
    assert (Hp : directive (str "pragma") t <> None)
      by (destruct (directive (str "pragma") t); [discriminate|discriminate H]).
    rewrite (Hx (str "pragma") (str "ifndef")),
            (Hx (str "pragma") (str "define")),
            (Hx (str "pragma") (str "endif")); try exact Hp; try discriminate.
    repeat split.
  - intros H.
    assert (Hp : directive (str "ifndef") t <> None)
      by (destruct (directive (str "ifndef") t); [discriminate|congruence]).
    rewrite (Hx (str "ifndef") (str "define")),
            (Hx (str "ifndef") (str "endif")); try exact Hp; try discriminate.
    split; reflexivity.
  - intros H.
    assert (Hp : directive (str "define") t <> None)
      by (destruct (directive (str "define") t); [discriminate|discriminate H]).
    rewrite (Hx (str "define") (str "endif")); try exact Hp; try discriminate.
    reflexivity.
Qed.

Lemma patterns_exclusive_witness :
  reIfndef (str "  #pragma once") = None
  /\ reDefine (str "FOO_H") (str "  #pragma once") = false
  /\ reEndif (str "  #pragma once") = false.
Proof.
  apply (proj1 (patterns_exclusive (str "  #pragma once") (str "FOO_H"))).
  reflexivity.
Defined.
